(** * Experiment: delayed and throttled orchestration of an Estimator

    A shallow embedding of
    [tensorflow/contrib/learn/python/learn/experiment.py].

    The class [Experiment] stores a configuration and sequences calls to
    an external [Estimator], to [time.sleep]/[time.time] and to the
    logger.  The embedding keeps that shape:

    - the Python object [self] and the list object its [_train_monitors]
      field may refer to live in a [State], next to the wall clock and
      the chronological record of every call made to a collaborator;
    - the collaborators (what [fit] and [evaluate] answer, how long they
      take, which lengths [time.sleep] refuses and how much longer than
      asked a sleep lasts) are an [Environment], a script the methods
      consult but never change;
    - a method is a function from states to an [Outcome] and a state;
      [while True] is unrolled a given number of times, and a loop that
      is still going when the unrolling stops ends in [Running].

    Seconds are exact rationals (Python uses floats), and the clock only
    moves while the program sleeps or while the Estimator works. *)

From Stdlib Require Import QArith Qminmax Lqa ZArith String.
From stdpp Require Import base list.

Local Open Scope string_scope.
Local Open Scope list_scope.
Local Open Scope Q_scope.

(** ** Data model *)

(** Collaborator objects are opaque to this module; an identifier stands
    for each of them. *)
Inductive EstimatorRef : Type := EstimatorObj (id : nat).
Inductive InputFn : Type := InputFnObj (id : nat).
Inductive MetricFn : Type := MetricFnObj (id : nat).

(** [eval_metrics]: a dict from names to metric functions, or [None]. *)
Definition Metrics : Type := option (list (string * MetricFn)).

(** [train_steps], [eval_steps], [local_eval_frequency]: an int or [None]. *)
Definition Steps : Type := option Z.

(** An element of the monitor list: one supplied by the caller, or the
    [monitors.ValidationMonitor] that [local_run] builds, recorded with
    the keyword arguments of its constructor. *)
Inductive Monitor : Type :=
| UserMonitor (id : nat)
| ValidationMonitor (input_fn : InputFn) (eval_steps : Steps)
                    (metrics : Metrics) (every_n_steps : Z).

(** Python lists are objects: a field holds a reference to one. *)
Abbreviation loc := nat (only parsing).

Record Experiment : Type := mkExperiment {
  _estimator : EstimatorRef;
  _train_input_fn : InputFn;
  _eval_input_fn : InputFn;
  _eval_metrics : Metrics;
  _train_steps : Steps;
  _eval_steps : Steps;
  _train_monitors : option loc;
  _local_eval_frequency : Steps
}.

(** [Experiment.__init__]: every parameter is stored as it comes. *)
Definition __init__ (estimator : EstimatorRef)
    (train_input_fn eval_input_fn : InputFn) (eval_metrics : Metrics)
    (train_steps eval_steps : Steps) (train_monitors : option loc)
    (local_eval_frequency : Steps) : Experiment :=
  {| _estimator := estimator;
     _train_input_fn := train_input_fn;
     _eval_input_fn := eval_input_fn;
     _eval_metrics := eval_metrics;
     _train_steps := train_steps;
     _eval_steps := eval_steps;
     _train_monitors := train_monitors;
     _local_eval_frequency := local_eval_frequency |}.

(** Values the Estimator hands back. *)
Inductive Value : Type :=
| VNone
| VEstimator (e : EstimatorRef)
| VResults (r : list (string * Q)).

(** Exception classes.  [ValueError] is what [time.sleep] raises on a
    negative length, [OverflowError] what it raises on a length it
    cannot turn into a timeout. *)
Inductive Exn : Type :=
| NotFittedError
| ValueError
| OverflowError
| OtherError (id : nat).

(** The [except NotFittedError] test. *)
Definition is_NotFittedError (e : Exn) : bool :=
  match e with NotFittedError => true | _ => false end.

(** Keyword arguments of [Estimator.fit] and [Estimator.evaluate]. *)
Record FitCall : Type := mkFitCall {
  fit_input_fn : InputFn;
  fit_max_steps : Steps;
  fit_monitors : option loc
}.

Record EvaluateCall : Type := mkEvaluateCall {
  evaluate_input_fn : InputFn;
  evaluate_steps : Steps;
  evaluate_metrics : Metrics;
  evaluate_name : string
}.

(** What the program does to the outside, in the order it does it. *)
Inductive Event : Type :=
| LogInfo (fmt : string) (arg : Q)
| LogWarning (msg : string)
| Sleep (secs : Q)
| Fit (est : EstimatorRef) (c : FitCall)
| Evaluate (est : EstimatorRef) (c : EvaluateCall).

(** An event with the clock reading at which it starts. *)
Definition Stamped : Type := (Q * Event)%type.

Record State : Type := mkState {
  self : Experiment;
  heap : list (list Monitor);
  clock : Q;
  trace : list Stamped
}.

(** ** The collaborators *)

Record Response : Type := mkResponse {
  took : Q;
  outcome : Exn + Value
}.

(** The script is indexed by the number of events that came before.
    [sleep_error n secs] is the exception with which [time.sleep]
    refuses the length [secs], if it refuses it: which lengths are
    refused, and with what, depends on the interpreter and on the
    operating system, so it is left to the environment. *)
Record Environment : Type := mkEnvironment {
  fit_response : nat -> EstimatorRef -> FitCall -> Response;
  evaluate_response : nat -> EstimatorRef -> EvaluateCall -> Response;
  sleep_error : nat -> Q -> option Exn;
  oversleep : nat -> Q
}.

(** Nothing takes a negative amount of time. *)
Definition well_behaved (env : Environment) : Prop :=
  (forall n est c, 0 <= took (fit_response env n est c)) /\
  (forall n est c, 0 <= took (evaluate_response env n est c)) /\
  (forall n, 0 <= oversleep env n).

(** [time.sleep] refuses every negative length. *)
Definition refuses_negative (env : Environment) : Prop :=
  forall n secs, secs < 0 -> sleep_error env n secs <> None.

(** [time.sleep] accepts every length from [0] to [bound]. *)
Definition sleeps_up_to (env : Environment) (bound : Q) : Prop :=
  forall n secs, 0 <= secs -> secs <= bound -> sleep_error env n secs = None.

(** ** Outcomes and the method monad *)

Inductive Outcome (A : Type) : Type :=
| Returned (a : A)
| Raised (e : Exn)
| Running.

Arguments Returned {A} a.
Arguments Raised {A} e.
Arguments Running {A}.

Definition M (A : Type) : Type := State -> Outcome A * State.

Definition ret {A : Type} (a : A) : M A := fun st => (Returned a, st).

Definition raise {A : Type} (e : Exn) : M A := fun st => (Raised e, st).

Definition bind {A B : Type} (m : M A) (k : A -> M B) : M B :=
  fun st =>
    match m st with
    | (Returned a, st') => k a st'
    | (Raised e, st') => (Raised e, st')
    | (Running, st') => (Running, st')
    end.

Declare Scope exp_scope.
Delimit Scope exp_scope with exp.
Notation "x <- m ;; k" := (bind m (fun x => k))
  (at level 100, m at next level, right associativity) : exp_scope.
Notation "m ;; k" := (bind m (fun _ => k))
  (at level 100, right associativity) : exp_scope.
Local Open Scope exp_scope.

(** [try: m except ...: handler]. *)
Definition try_except {A : Type} (m : M A) (handler : Exn -> M A) : M A :=
  fun st =>
    match m st with
    | (Raised e, st') => handler e st'
    | r => r
    end.

(** [while True: body], unrolled [fuel] times. *)
Fixpoint while_true (fuel : nat) (body : M unit) : M Empty_set :=
  fun st =>
    match fuel with
    | O => (Running, st)
    | S fuel' =>
        match body st with
        | (Returned _, st') => while_true fuel' body st'
        | (Raised e, st') => (Raised e, st')
        | (Running, st') => (Running, st')
        end
    end.

(** ** State access *)

Definition get_self : M Experiment := fun st => (Returned (self st), st).

Definition emit (ev : Event) : M unit :=
  fun st =>
    (Returned tt,
     {| self := self st; heap := heap st; clock := clock st;
        trace := trace st ++ [(clock st, ev)] |}).

Definition advance (d : Q) : M unit :=
  fun st =>
    (Returned tt,
     {| self := self st; heap := heap st; clock := clock st + d;
        trace := trace st |}).

(** The experiment with another value in its [_train_monitors] field. *)
Definition with_train_monitors (e : Experiment) (r : option loc)
    : Experiment :=
  {| _estimator := _estimator e;
     _train_input_fn := _train_input_fn e;
     _eval_input_fn := _eval_input_fn e;
     _eval_metrics := _eval_metrics e;
     _train_steps := _train_steps e;
     _eval_steps := _eval_steps e;
     _train_monitors := r;
     _local_eval_frequency := _local_eval_frequency e |}.

(** [self._train_monitors = r]. *)
Definition set_train_monitors (r : option loc) : M unit :=
  fun st =>
    (Returned tt,
     {| self := with_train_monitors (self st) r;
        heap := heap st; clock := clock st; trace := trace st |}).

(** A fresh list object. *)
Definition new_list (xs : list Monitor) : M loc :=
  fun st =>
    (Returned (length (heap st)),
     {| self := self st; heap := heap st ++ [xs]; clock := clock st;
        trace := trace st |}).

(** Truth value of a reference: [None] and the empty list are false. *)
Definition truthy_list (h : list (list Monitor)) (r : option loc) : bool :=
  match r with
  | None => false
  | Some l => match h !! l with
              | Some (_ :: _) => true
              | _ => false
              end
  end.

(** [r or []]: the operand itself when it is true, else a new list. *)
Definition or_empty_list (r : option loc) : M loc :=
  fun st =>
    match r with
    | Some l => if truthy_list (heap st) r then (Returned l, st)
                else new_list [] st
    | None => new_list [] st
    end.

(** [l += xs] on a list object: extends it in place and yields it. *)
Definition list_iadd (l : loc) (xs : list Monitor) : M loc :=
  fun st =>
    (Returned l,
     {| self := self st; heap := alter (fun old => old ++ xs) l (heap st);
        clock := clock st; trace := trace st |}).

(** Truth value of a number, and of a number or [None]. *)
Definition truthy_Q (x : Q) : bool := negb (Qeq_bool x 0).

Definition truthy_steps (x : Steps) : option Z :=
  match x with
  | Some n => if (n =? 0)%Z then None else Some n
  | None => None
  end.

Definition Qlt_bool (x y : Q) : bool := negb (Qle_bool y x).

(** ** Library calls *)

Section Methods.

Variable env : Environment.

Definition time_time : M Q := fun st => (Returned (clock st), st).

(** [time.sleep(secs)]: either the call is refused and raises, with
    nothing slept, or it lasts [secs] and what the scheduler adds. *)
Definition time_sleep (secs : Q) : M unit :=
  fun st =>
    match sleep_error env (length (trace st)) secs with
    | Some ex => (Raised ex, st)
    | None => (emit (Sleep secs) ;;
               advance (secs + oversleep env (length (trace st)))) st
    end.

Definition logging_info (fmt : string) (arg : Q) : M unit :=
  emit (LogInfo fmt arg).

Definition logging_warning (msg : string) : M unit :=
  emit (LogWarning msg).

Definition answer (r : Response) : M Value :=
  advance (took r) ;;
  match outcome r with
  | inl e => raise e
  | inr v => ret v
  end.

Definition estimator_fit (est : EstimatorRef) (c : FitCall) : M Value :=
  fun st =>
    (emit (Fit est c) ;;
     answer (fit_response env (length (trace st)) est c)) st.

Definition estimator_evaluate (est : EstimatorRef) (c : EvaluateCall)
    : M Value :=
  fun st =>
    (emit (Evaluate est c) ;;
     answer (evaluate_response env (length (trace st)) est c)) st.

(** ** The methods of [Experiment] *)

Definition train (delay_secs : Q) : M Value :=
  (if truthy_Q delay_secs then
     logging_info "Waiting %d secs before starting training." delay_secs ;;
     time_sleep delay_secs
   else ret tt) ;;
  e <- get_self ;;
  estimator_fit (_estimator e)
    {| fit_input_fn := _train_input_fn e;
       fit_max_steps := _train_steps e;
       fit_monitors := _train_monitors e |}.

Definition evaluate (delay_secs : Q) : M Value :=
  (if truthy_Q delay_secs then
     logging_info "Waiting %d secs before starting eval." delay_secs ;;
     time_sleep delay_secs
   else ret tt) ;;
  e <- get_self ;;
  estimator_evaluate (_estimator e)
    {| evaluate_input_fn := _eval_input_fn e;
       evaluate_steps := _eval_steps e;
       evaluate_metrics := _eval_metrics e;
       evaluate_name := "one_pass" |}.

(** [self._train_monitors = self._train_monitors or []], then, under
    [if self._local_eval_frequency:], the augmented assignment
    [self._train_monitors += [...]] on the list [l] the field now holds:
    the list is extended in place and stored back. *)
Definition local_run : M Value :=
  e <- get_self ;;
  l <- or_empty_list (_train_monitors e) ;;
  set_train_monitors (Some l) ;;
  e <- get_self ;;
  match truthy_steps (_local_eval_frequency e) with
  | Some n =>
      l' <- list_iadd l
              [ValidationMonitor (_eval_input_fn e) (_eval_steps e)
                                 (_eval_metrics e) n] ;;
      set_train_monitors (Some l')
  | None => ret tt
  end ;;
  train 0 ;;
  evaluate 0.

(** One turn of the loop of [_continuous_eval]. *)
Definition eval_iteration (input_fn : InputFn) (name : string)
    (throttle_delay_secs : Q) : M unit :=
  start <- time_time ;;
  try_except
    (e <- get_self ;;
     estimator_evaluate (_estimator e)
       {| evaluate_input_fn := input_fn;
          evaluate_steps := _eval_steps e;
          evaluate_metrics := _eval_metrics e;
          evaluate_name := name |} ;;
     ret tt)
    (fun ex =>
       if is_NotFittedError ex then
         logging_warning
           "Estimator is not fitted yet, skipping evaluation. Increase 'delay_secs' to avoid this warning."
       else raise ex) ;;
  now <- time_time ;;
  let duration := now - start in
  if Qlt_bool duration throttle_delay_secs then
    let difference := throttle_delay_secs - duration in
    logging_info "Waiting %f secs before starting next eval run." difference ;;
    time_sleep difference
  else ret tt.

Definition _continuous_eval (fuel : nat) (input_fn : InputFn)
    (name : string) (delay_secs throttle_delay_secs : Q) : M Empty_set :=
  (if truthy_Q delay_secs then
     logging_info "Waiting %f secs before starting eval." delay_secs ;;
     time_sleep delay_secs
   else ret tt) ;;
  while_true fuel (eval_iteration input_fn name throttle_delay_secs).

Definition continuous_eval (fuel : nat) (delay_secs throttle_delay_secs : Q)
    : M Empty_set :=
  e <- get_self ;;
  _continuous_eval fuel (_eval_input_fn e) "continuous"
    delay_secs throttle_delay_secs.

Definition continuous_eval_on_train_data (fuel : nat)
    (delay_secs throttle_delay_secs : Q) : M Empty_set :=
  e <- get_self ;;
  _continuous_eval fuel (_train_input_fn e) "continuous_on_train_data"
    delay_secs throttle_delay_secs.

End Methods.

(** ** Observations on a run *)

(** What a caller sees of a response of the Estimator. *)
Definition outcome_of (r : Response) : Outcome Value :=
  match outcome r with
  | inl e => Raised e
  | inr v => Returned v
  end.

Definition is_estimator_call (s : Stamped) : bool :=
  match snd s with
  | Fit _ _ | Evaluate _ _ => true
  | _ => false
  end.

Definition is_sleep (s : Stamped) : bool :=
  match snd s with
  | Sleep _ => true
  | _ => false
  end.

(** The instants at which [Estimator.evaluate] is invoked. *)
Definition evaluate_starts (tr : list Stamped) : list Q :=
  omap (fun s => match snd s with
                 | Evaluate _ _ => Some (fst s)
                 | _ => None
                 end) tr.

(** The keyword arguments of the invocations of [Estimator.evaluate]. *)
Definition evaluate_calls (tr : list Stamped) : list EvaluateCall :=
  omap (fun s => match snd s with
                 | Evaluate _ c => Some c
                 | _ => None
                 end) tr.

(** The monitor list the experiment holds; [None] reads as no monitor. *)
Definition monitors_of (st : State) : list Monitor :=
  match _train_monitors (self st) with
  | Some l => default [] (heap st !! l)
  | None => []
  end.

(** The arguments [train] and [evaluate] build from the stored fields. *)
Definition train_call (e : Experiment) : FitCall :=
  {| fit_input_fn := _train_input_fn e;
     fit_max_steps := _train_steps e;
     fit_monitors := _train_monitors e |}.

Definition eval_call (e : Experiment) (input_fn : InputFn) (name : string)
    : EvaluateCall :=
  {| evaluate_input_fn := input_fn;
     evaluate_steps := _eval_steps e;
     evaluate_metrics := _eval_metrics e;
     evaluate_name := name |}.

(** ** States reached along the way *)

Definition training_delay_fmt : string :=
  "Waiting %d secs before starting training.".
Definition eval_delay_fmt : string :=
  "Waiting %d secs before starting eval.".
Definition continuous_delay_fmt : string :=
  "Waiting %f secs before starting eval.".
Definition throttle_fmt : string :=
  "Waiting %f secs before starting next eval run.".
Definition not_fitted_msg : string :=
  "Estimator is not fitted yet, skipping evaluation. Increase 'delay_secs' to avoid this warning.".

(** After a logged sleep of [d] seconds. *)
Definition slept (env : Environment) (fmt : string) (d : Q) (st : State)
    : State :=
  {| self := self st; heap := heap st;
     clock := clock st + (d + oversleep env (S (length (trace st))));
     trace := trace st ++ [(clock st, LogInfo fmt d); (clock st, Sleep d)] |}.

(** After the log line of a wait. *)
Definition logged (fmt : string) (d : Q) (st : State) : State :=
  {| self := self st; heap := heap st; clock := clock st;
     trace := trace st ++ [(clock st, LogInfo fmt d)] |}.

(** A logged wait of [d] seconds: the log line, then [time.sleep],
    which refuses the length or sleeps. *)
Definition logged_sleep (env : Environment) (fmt : string) (d : Q)
    (st : State) : Outcome unit * State :=
  match sleep_error env (S (length (trace st))) d with
  | Some ex => (Raised ex, logged fmt d st)
  | None => (Returned tt, slept env fmt d st)
  end.

(** The optional initial wait of a method. *)
Definition initial_delay (env : Environment) (fmt : string) (d : Q)
    (st : State) : Outcome unit * State :=
  if truthy_Q d then logged_sleep env fmt d st else (Returned tt, st).

(** After the optional initial wait of a method, when it is over. *)
Definition delayed (env : Environment) (fmt : string) (d : Q) (st : State)
    : State :=
  if truthy_Q d then slept env fmt d st else st.

(** After a call of [Estimator.evaluate]. *)
Definition evaluated (env : Environment) (c : EvaluateCall) (st : State)
    : State :=
  let est := _estimator (self st) in
  {| self := self st; heap := heap st;
     clock := clock st + took (evaluate_response env (length (trace st)) est c);
     trace := trace st ++ [(clock st, Evaluate est c)] |}.

(** After a call of [Estimator.fit]. *)
Definition fitted (env : Environment) (c : FitCall) (st : State) : State :=
  let est := _estimator (self st) in
  {| self := self st; heap := heap st;
     clock := clock st + took (fit_response env (length (trace st)) est c);
     trace := trace st ++ [(clock st, Fit est c)] |}.

(** After the warning of the [except] clause. *)
Definition warned (st : State) : State :=
  {| self := self st; heap := heap st; clock := clock st;
     trace := trace st ++ [(clock st, LogWarning not_fitted_msg)] |}.

(** After the throttle at the end of a turn that began at [start], when
    it is over. *)
Definition throttled (env : Environment) (throttle start : Q) (st : State)
    : State :=
  if Qlt_bool (clock st - start) throttle then
    slept env throttle_fmt (throttle - (clock st - start)) st
  else st.

(** The throttle at the end of a turn that began at [start]. *)
Definition throttle_wait (env : Environment) (throttle start : Q)
    (st : State) : Outcome unit * State :=
  if Qlt_bool (clock st - start) throttle then
    logged_sleep env throttle_fmt (throttle - (clock st - start)) st
  else (Returned tt, st).

(** Each instant of the list is at least [gap] after the one before, the
    first one no earlier than [lo]. *)
Fixpoint paced (gap lo : Q) (starts : list Q) : Prop :=
  match starts with
  | [] => True
  | a :: rest => lo <= a /\ paced gap (a + gap) rest
  end.

(** Consecutive instants are at least [gap] apart. *)
Definition spaced (gap : Q) (starts : list Q) : Prop :=
  forall (i : nat) (a b : Q),
    starts !! i = Some a -> starts !! S i = Some b -> a + gap <= b.

(** ** Sample collaborators and experiments *)

(** The lengths CPython 3 turns into a timeout, a signed 64-bit count
    of nanoseconds. *)
Definition sleep_min : Q := (-9223372036854775808) # 1000000000.
Definition sleep_limit : Q := 9223372036854775807 # 1000000000.

(** A [time.sleep] that makes the checks CPython 3 makes on its
    argument: [OverflowError] outside that range, [ValueError] on a
    negative length within it.  What an operating system refuses on
    top of that is not part of this sample. *)
Definition cpython_sleep_error (n : nat) (secs : Q) : option Exn :=
  if Qlt_bool secs sleep_min || Qlt_bool sleep_limit secs then
    Some OverflowError
  else if Qlt_bool secs 0 then Some ValueError
  else None.

Definition sample_estimator : EstimatorRef := EstimatorObj 0.

Definition sample_experiment : Experiment :=
  __init__ sample_estimator (InputFnObj 1) (InputFnObj 2) None
    (Some 1000%Z) (Some 100%Z) None (Some 5%Z).

(** The state of a program that has just built an experiment. *)
Definition fresh_state (e : Experiment) : State :=
  {| self := e; heap := []; clock := 0; trace := [] |}.

(** An Estimator with a checkpoint: fitting takes 5 seconds, evaluating
    10 seconds, and sleeps overrun by a tenth of a second. *)
Definition steady_env : Environment :=
  {| fit_response := fun _ est _ =>
       {| took := 5; outcome := inr (VEstimator est) |};
     evaluate_response := fun _ _ _ =>
       {| took := 10; outcome := inr (VResults [("loss", 1 # 2)]) |};
     sleep_error := cpython_sleep_error;
     oversleep := fun _ => 1 # 10 |}.

(** An Estimator that has no checkpoint yet. *)
Definition unfitted_env : Environment :=
  {| fit_response := fun _ est _ =>
       {| took := 5; outcome := inr (VEstimator est) |};
     evaluate_response := fun _ _ _ =>
       {| took := 1; outcome := inl NotFittedError |};
     sleep_error := cpython_sleep_error;
     oversleep := fun _ => 0 |}.

(** An Estimator whose calls fail with some other error. *)
Definition failing_env : Environment :=
  {| fit_response := fun _ _ _ =>
       {| took := 2; outcome := inl (OtherError 7) |};
     evaluate_response := fun _ _ _ =>
       {| took := 3; outcome := inl (OtherError 8) |};
     sleep_error := cpython_sleep_error;
     oversleep := fun _ => 0 |}.


(** An Estimator whose evaluation takes longer than a minute. *)
Definition slow_env : Environment :=
  {| fit_response := fun _ est _ =>
       {| took := 5; outcome := inr (VEstimator est) |};
     evaluate_response := fun _ _ _ =>
       {| took := 70; outcome := inr (VResults [("loss", 1 # 2)]) |};
     sleep_error := cpython_sleep_error;
     oversleep := fun _ => 0 |}.

(** ** The monitor list in [local_run] *)

(** The list object [self._train_monitors or []] yields: the stored one
    when it is true, else a new one at the next free location. *)
Definition monitors_ref (st : State) : loc :=
  match _train_monitors (self st) with
  | Some l =>
      if truthy_list (heap st) (_train_monitors (self st)) then l
      else length (heap st)
  | None => length (heap st)
  end.

Definition defaulted_heap (st : State) : list (list Monitor) :=
  if truthy_list (heap st) (_train_monitors (self st)) then heap st
  else heap st ++ [[]].

(** The monitors [local_run] adds for a given [local_eval_frequency]. *)
Definition periodic_monitors (e : Experiment) : list Monitor :=
  match truthy_steps (_local_eval_frequency e) with
  | Some n =>
      [ValidationMonitor (_eval_input_fn e) (_eval_steps e)
         (_eval_metrics e) n]
  | None => []
  end.

(** The state in which [local_run] calls [train]. *)
Definition prepared (st : State) : State :=
  {| self := with_train_monitors (self st) (Some (monitors_ref st));
     heap :=
       match truthy_steps (_local_eval_frequency (self st)) with
       | Some _ =>
           alter (fun old => old ++ periodic_monitors (self st))
             (monitors_ref st) (defaulted_heap st)
       | None => defaulted_heap st
       end;
     clock := clock st; trace := trace st |}.

(** An experiment whose [local_eval_frequency] is the integer [0], and
    one that was given a list holding a monitor of the caller. *)
Definition zero_frequency_experiment : Experiment :=
  __init__ sample_estimator (InputFnObj 1) (InputFnObj 2) None
    (Some 1000%Z) (Some 100%Z) None (Some 0%Z).

Definition monitored_state : State :=
  {| self := __init__ sample_estimator (InputFnObj 1) (InputFnObj 2) None
               (Some 1000%Z) (Some 100%Z) (Some 0%nat) (Some 5%Z);
     heap := [[UserMonitor 1]]; clock := 0; trace := [] |}.

Definition unscheduled_state : State :=
  {| self := __init__ sample_estimator (InputFnObj 1) (InputFnObj 2) None
               (Some 1000%Z) (Some 100%Z) (Some 0%nat) None;
     heap := [[UserMonitor 1]]; clock := 0; trace := [] |}.

(** An experiment built with the defaults of the constructor. *)
Definition bare_experiment : Experiment :=
  __init__ sample_estimator (InputFnObj 1) (InputFnObj 2) None
    None (Some 100%Z) None None.

(** ** Comparing the two continuous evaluations *)

(** An event in which a call of [Estimator.evaluate] has its input
    function and its name replaced. *)
Definition retag (input_fn : InputFn) (name : string) (s : Stamped)
    : Stamped :=
  match snd s with
  | Evaluate est c =>
      (fst s,
       Evaluate est {| evaluate_input_fn := input_fn;
                       evaluate_steps := evaluate_steps c;
                       evaluate_metrics := evaluate_metrics c;
                       evaluate_name := name |})
  | _ => s
  end.

(** Two states that differ only in how the calls made since [base] are
    tagged. *)
Definition alike (input_fn : InputFn) (name : string) (base : list Stamped)
    (sa sb : State) : Prop :=
  self sa = self sb /\ heap sa = heap sb /\ clock sa = clock sb /\
  exists evs : list Stamped,
    trace sa = base ++ evs /\
    trace sb = base ++ map (retag input_fn name) evs.

(** The Estimator answers by the steps and the metrics of an
    evaluation, whatever its input function and its name. *)
Definition tag_blind (env : Environment) : Prop :=
  forall (n : nat) (est : EstimatorRef) (c c' : EvaluateCall),
    evaluate_steps c = evaluate_steps c' ->
    evaluate_metrics c = evaluate_metrics c' ->
    evaluate_response env n est c = evaluate_response env n est c'.

(** ** Further observations *)

Definition is_fit (s : Stamped) : bool :=
  match snd s with
  | Fit _ _ => true
  | _ => false
  end.

Definition is_warning (s : Stamped) : bool :=
  match snd s with
  | LogWarning _ => true
  | _ => false
  end.

(** An answer of [Estimator.evaluate] after which the loop of
    [_continuous_eval] goes on: a value, or a [NotFittedError]. *)
Definition recoverable (o : Exn + Value) : bool :=
  match o with
  | inl ex => is_NotFittedError ex
  | inr _ => true
  end.

(** [local_run] called [k] times in a row by a caller that goes on
    whatever each call returns or raises. *)
Fixpoint local_runs (env : Environment) (k : nat) (st : State) : State :=
  match k with
  | O => st
  | S k' => local_runs env k' (snd (local_run env st))
  end.

(** [Experiment(estimator, train_input_fn, eval_input_fn)]: the keyword
    parameters of the constructor at their defaults. *)
Definition default_Experiment (estimator : EstimatorRef)
    (train_input_fn eval_input_fn : InputFn) : Experiment :=
  __init__ estimator train_input_fn eval_input_fn None None (Some 100%Z)
    None None.

(** An experiment that was given an empty list of monitors. *)
Definition empty_list_state : State :=
  {| self := __init__ sample_estimator (InputFnObj 1) (InputFnObj 2) None
               (Some 1000%Z) (Some 100%Z) (Some 0%nat) (Some 5%Z);
     heap := [[]]; clock := 0; trace := [] |}.

(** The two ways in which a run of the loop of [_continuous_eval] that
    began in [st] can have stopped in [final] with the exception [ex]:
    the last event is a call of [Estimator.evaluate] that raised [ex],
    which is no [NotFittedError]; or the last event is the log line of
    a throttle whose remainder [time.sleep] refused with [ex]. *)
Definition ended_by_call (env : Environment) (input_fn : InputFn)
    (name : string) (ex : Exn) (st final : State) : Prop :=
  let est := _estimator (self st) in
  let c := eval_call (self st) input_fn name in
  is_NotFittedError ex = false /\
  exists (pre : list Stamped) (t : Q),
    trace final = trace st ++ pre ++ [(t, Evaluate est c)] /\
    outcome (evaluate_response env (length (trace st ++ pre)) est c) = inl ex.

Definition ended_by_sleep (env : Environment) (throttle : Q) (ex : Exn)
    (st final : State) : Prop :=
  exists (pre : list Stamped) (t diff : Q),
    0 < diff /\ diff <= throttle /\
    trace final =
      trace st ++ pre ++
        [(t, LogInfo "Waiting %f secs before starting next eval run." diff)] /\
    sleep_error env (S (length (trace st ++ pre))) diff = Some ex.
(** ** Arithmetic and bookkeeping lemmas *)

Lemma Qlt_bool_true (x y : Q) : Qlt_bool x y = true <-> x < y.
Proof.
  unfold Qlt_bool. rewrite negb_true_iff. split.
  - intros H. apply Qnot_le_lt. intros Hle.
    apply Qle_bool_iff in Hle. congruence.
  - intros H. destruct (Qle_bool y x) eqn:E; [|reflexivity].
    apply Qle_bool_iff in E. lra.
Qed.

Lemma Qlt_bool_false (x y : Q) : Qlt_bool x y = false <-> y <= x.
Proof.
  unfold Qlt_bool. rewrite negb_false_iff. apply Qle_bool_iff.
Qed.

Lemma truthy_Q_false (d : Q) : truthy_Q d = false <-> d == 0.
Proof.
  unfold truthy_Q. rewrite negb_false_iff. apply Qeq_bool_iff.
Qed.

Lemma truthy_Q_true (d : Q) : truthy_Q d = true <-> ~ d == 0.
Proof.
  unfold truthy_Q. rewrite negb_true_iff. split.
  - intros H Hd. apply Qeq_bool_iff in Hd. congruence.
  - intros H. destruct (Qeq_bool d 0) eqn:E; [|reflexivity].
    apply Qeq_bool_iff in E. contradiction.
Qed.

Lemma time_sleep_ok (env : Environment) (secs : Q) (st : State) :
  sleep_error env (length (trace st)) secs = None ->
  time_sleep env secs st =
    (Returned tt,
     {| self := self st; heap := heap st;
        clock := clock st + (secs + oversleep env (length (trace st)));
        trace := trace st ++ [(clock st, Sleep secs)] |}).
Proof. intros H. unfold time_sleep. rewrite H. reflexivity. Qed.

Lemma time_sleep_refused (env : Environment) (secs : Q) (st : State)
    (ex : Exn) :
  sleep_error env (length (trace st)) secs = Some ex ->
  time_sleep env secs st = (Raised ex, st).
Proof. intros H. unfold time_sleep. rewrite H. reflexivity. Qed.

Lemma estimator_fit_run (env : Environment) est c (st : State) :
  estimator_fit env est c st =
    (outcome_of (fit_response env (length (trace st)) est c),
     {| self := self st; heap := heap st;
        clock := clock st + took (fit_response env (length (trace st)) est c);
        trace := trace st ++ [(clock st, Fit est c)] |}).
Proof.
  unfold estimator_fit, answer, outcome_of, bind, emit, advance. cbn.
  destruct (outcome _); reflexivity.
Qed.

Lemma estimator_evaluate_run (env : Environment) est c (st : State) :
  estimator_evaluate env est c st =
    (outcome_of (evaluate_response env (length (trace st)) est c),
     {| self := self st; heap := heap st;
        clock :=
          clock st + took (evaluate_response env (length (trace st)) est c);
        trace := trace st ++ [(clock st, Evaluate est c)] |}).
Proof.
  unfold estimator_evaluate, answer, outcome_of, bind, emit, advance. cbn.
  destruct (outcome _); reflexivity.
Qed.

(** *** Waits *)

Lemma logged_sleep_run (env : Environment) (fmt : string) (d : Q)
    (st : State) :
  (logging_info fmt d ;; time_sleep env d) st = logged_sleep env fmt d st.
Proof.
  unfold bind, logging_info, logged_sleep. cbn.
  unfold time_sleep. cbn [trace]. rewrite length_app, Nat.add_1_r. cbn.
  destruct (sleep_error env _ d); [reflexivity|].
  unfold slept. cbn. rewrite <- app_assoc. reflexivity.
Qed.

Lemma initial_wait (env : Environment) (fmt : string) (d : Q) (st : State) :
  (if truthy_Q d then logging_info fmt d ;; time_sleep env d else ret tt) st
  = initial_delay env fmt d st.
Proof.
  unfold initial_delay. destruct (truthy_Q d); [|reflexivity].
  apply logged_sleep_run.
Qed.

Lemma throttle_run (env : Environment) (throttle start : Q) (st : State) :
  (now <- time_time ;;
   let duration := now - start in
   if Qlt_bool duration throttle then
     let difference := throttle - duration in
     logging_info throttle_fmt difference ;; time_sleep env difference
   else ret tt) st
  = throttle_wait env throttle start st.
Proof.
  unfold bind at 1. unfold time_time. cbn beta iota zeta.
  unfold throttle_wait.
  destruct (Qlt_bool (clock st - start) throttle); [|reflexivity].
  apply logged_sleep_run.
Qed.

(** A wait ends in the state after the sleep, or fails after its log
    line with what [time.sleep] raised. *)
Lemma logged_sleep_cases (env : Environment) (fmt : string) (d : Q)
    (st : State) :
  (sleep_error env (S (length (trace st))) d = None /\
   logged_sleep env fmt d st = (Returned tt, slept env fmt d st)) \/
  (exists ex,
     sleep_error env (S (length (trace st))) d = Some ex /\
     logged_sleep env fmt d st = (Raised ex, logged fmt d st)).
Proof.
  unfold logged_sleep. destruct (sleep_error env _ d) as [ex|].
  - right. exists ex. split; reflexivity.
  - left. split; reflexivity.
Qed.

Lemma initial_delay_cases (env : Environment) (fmt : string) (d : Q)
    (st : State) :
  initial_delay env fmt d st = (Returned tt, delayed env fmt d st) \/
  (exists ex,
     truthy_Q d = true /\
     sleep_error env (S (length (trace st))) d = Some ex /\
     initial_delay env fmt d st = (Raised ex, logged fmt d st)).
Proof.
  unfold initial_delay, delayed. destruct (truthy_Q d); [|now left].
  destruct (logged_sleep_cases env fmt d st) as [[_ H] | (ex & He & H)].
  - now left.
  - right. exists ex. repeat split; assumption.
Qed.

Lemma initial_delay_zero (env : Environment) (fmt : string) (d : Q)
    (st : State) :
  d == 0 -> initial_delay env fmt d st = (Returned tt, st).
Proof.
  intros Hd. unfold initial_delay. apply truthy_Q_false in Hd.
  now rewrite Hd.
Qed.

Lemma initial_delay_refused (env : Environment) (fmt : string) (d : Q)
    (st : State) (ex : Exn) :
  ~ d == 0 -> sleep_error env (S (length (trace st))) d = Some ex ->
  initial_delay env fmt d st = (Raised ex, logged fmt d st).
Proof.
  intros Hd He. unfold initial_delay, logged_sleep.
  apply truthy_Q_true in Hd. now rewrite Hd, He.
Qed.

Lemma throttle_wait_cases (env : Environment) (throttle start : Q)
    (st : State) :
  throttle_wait env throttle start st =
    (Returned tt, throttled env throttle start st) \/
  (exists ex,
     clock st - start < throttle /\
     sleep_error env (S (length (trace st))) (throttle - (clock st - start))
       = Some ex /\
     throttle_wait env throttle start st =
       (Raised ex,
        logged throttle_fmt (throttle - (clock st - start)) st)).
Proof.
  unfold throttle_wait, throttled.
  destruct (Qlt_bool (clock st - start) throttle) eqn:E; [|now left].
  apply Qlt_bool_true in E.
  destruct (logged_sleep_cases env throttle_fmt
              (throttle - (clock st - start)) st) as [[_ H] | (ex & He & H)].
  - now left.
  - right. exists ex. repeat split; assumption.
Qed.

Lemma throttle_wait_ok (env : Environment) (throttle start : Q)
    (st : State) :
  start <= clock st -> sleeps_up_to env throttle ->
  throttle_wait env throttle start st =
    (Returned tt, throttled env throttle start st).
Proof.
  intros Hc Hs. unfold throttle_wait, throttled, logged_sleep.
  destruct (Qlt_bool (clock st - start) throttle) eqn:E; [|reflexivity].
  apply Qlt_bool_true in E. rewrite Hs by lra. reflexivity.
Qed.

(** *** The methods, unfolded *)

Lemma train_unfold (env : Environment) (d : Q) (st : State) :
  train env d st =
    match initial_delay env training_delay_fmt d st with
    | (Returned _, s) =>
        (outcome_of (fit_response env (length (trace s))
                       (_estimator (self s)) (train_call (self s))),
         fitted env (train_call (self s)) s)
    | (Raised ex, s) => (Raised ex, s)
    | (Running, s) => (Running, s)
    end.
Proof.
  unfold train. unfold bind at 1. rewrite initial_wait.
  fold training_delay_fmt.
  destruct (initial_delay env training_delay_fmt d st) as [[[]|ex|] s];
    try reflexivity.
  unfold bind, get_self. rewrite estimator_fit_run. reflexivity.
Qed.

Lemma evaluate_unfold (env : Environment) (d : Q) (st : State) :
  evaluate env d st =
    match initial_delay env eval_delay_fmt d st with
    | (Returned _, s) =>
        (outcome_of (evaluate_response env (length (trace s))
                       (_estimator (self s))
                       (eval_call (self s) (_eval_input_fn (self s)) "one_pass")),
         evaluated env
           (eval_call (self s) (_eval_input_fn (self s)) "one_pass") s)
    | (Raised ex, s) => (Raised ex, s)
    | (Running, s) => (Running, s)
    end.
Proof.
  unfold evaluate. unfold bind at 1. rewrite initial_wait.
  fold eval_delay_fmt.
  destruct (initial_delay env eval_delay_fmt d st) as [[[]|ex|] s];
    try reflexivity.
  unfold bind, get_self. rewrite estimator_evaluate_run. reflexivity.
Qed.

Lemma continuous_eval_unfold (env : Environment) (fuel : nat)
    (input_fn : InputFn) (name : string) (d throttle : Q) (st : State) :
  _continuous_eval env fuel input_fn name d throttle st =
    match initial_delay env continuous_delay_fmt d st with
    | (Returned _, s) =>
        while_true fuel (eval_iteration env input_fn name throttle) s
    | (Raised ex, s) => (Raised ex, s)
    | (Running, s) => (Running, s)
    end.
Proof.
  unfold _continuous_eval. unfold bind at 1. rewrite initial_wait.
  fold continuous_delay_fmt.
  destruct (initial_delay env continuous_delay_fmt d st) as [[[]|ex|] s];
    reflexivity.
Qed.

Lemma delayed_self (env : Environment) (fmt : string) (d : Q) (st : State) :
  self (delayed env fmt d st) = self st.
Proof. unfold delayed. destruct (truthy_Q d); reflexivity. Qed.

Lemma delayed_heap (env : Environment) (fmt : string) (d : Q) (st : State) :
  heap (delayed env fmt d st) = heap st.
Proof. unfold delayed. destruct (truthy_Q d); reflexivity. Qed.


Lemma delayed_trace (env : Environment) (fmt : string) (d : Q) (st : State) :
  exists evs,
    trace (delayed env fmt d st) = trace st ++ evs /\
    List.filter is_estimator_call evs = [] /\
    evaluate_starts evs = [] /\ evaluate_calls evs = [].
Proof.
  unfold delayed. destruct (truthy_Q d).
  - eexists. split; [reflexivity|]. repeat split.
  - exists []. rewrite app_nil_r. repeat split.
Qed.

Lemma train_now (env : Environment) (st : State) :
  train env 0 st =
    (outcome_of (fit_response env (length (trace st))
                   (_estimator (self st)) (train_call (self st))),
     fitted env (train_call (self st)) st).
Proof.
  rewrite train_unfold, initial_delay_zero by reflexivity. reflexivity.
Qed.

Lemma evaluate_now (env : Environment) (st : State) :
  evaluate env 0 st =
    (outcome_of (evaluate_response env (length (trace st))
                   (_estimator (self st))
                   (eval_call (self st) (_eval_input_fn (self st)) "one_pass")),
     evaluated env
       (eval_call (self st) (_eval_input_fn (self st)) "one_pass") st).
Proof.
  rewrite evaluate_unfold, initial_delay_zero by reflexivity. reflexivity.
Qed.


(** The run of [_continuous_eval]: the loop from the state after the
    wait, or nothing but the log line of a wait that failed. *)
Lemma continuous_eval_cases (env : Environment) (fuel : nat)
    (input_fn : InputFn) (name : string) (d throttle : Q) (st : State) :
  _continuous_eval env fuel input_fn name d throttle st =
    while_true fuel (eval_iteration env input_fn name throttle)
      (delayed env continuous_delay_fmt d st) \/
  (exists ex,
     _continuous_eval env fuel input_fn name d throttle st =
       (Raised ex, logged continuous_delay_fmt d st)).
Proof.
  rewrite continuous_eval_unfold.
  destruct (initial_delay_cases env continuous_delay_fmt d st)
    as [-> | (ex & _ & _ & ->)].
  - now left.
  - right. now exists ex.
Qed.

Lemma eval_iteration_run (env : Environment) (input_fn : InputFn)
    (name : string) (throttle : Q) (st : State) :
  let c := eval_call (self st) input_fn name in
  eval_iteration env input_fn name throttle st =
    match outcome (evaluate_response env (length (trace st))
                     (_estimator (self st)) c) with
    | inl ex =>
        if is_NotFittedError ex then
          throttle_wait env throttle (clock st) (warned (evaluated env c st))
        else (Raised ex, evaluated env c st)
    | inr _ => throttle_wait env throttle (clock st) (evaluated env c st)
    end.
Proof.
  intros c. unfold eval_iteration.
  unfold bind at 1. unfold time_time at 1. cbn beta iota.
  unfold bind at 1. unfold try_except.
  unfold bind at 1. unfold get_self at 1. cbn beta iota.
  unfold bind at 1. rewrite estimator_evaluate_run.
  fold c. unfold outcome_of.
  destruct (outcome _) as [ex|v]; cbn beta iota.
  - destruct (is_NotFittedError ex).
    + unfold logging_warning, emit. cbn beta iota.
      apply (throttle_run env throttle (clock st)).
    + reflexivity.
  - unfold ret at 1. cbn beta iota.
    apply (throttle_run env throttle (clock st)).
Qed.

(** *** The loop *)

Lemma while_true_turn (fuel : nat) (body : M unit) (st : State) :
  while_true (S fuel) body st =
    match body st with
    | (Returned _, st') => while_true fuel body st'
    | (Raised e, st') => (Raised e, st')
    | (Running, st') => (Running, st')
    end.
Proof. reflexivity. Qed.

Lemma throttled_clock (env : Environment) (throttle start : Q) (st : State) :
  (forall n, 0 <= oversleep env n) ->
  start + throttle <= clock (throttled env throttle start st).
Proof.
  intros Hs. unfold throttled.
  destruct (Qlt_bool (clock st - start) throttle) eqn:E.
  - cbn. specialize (Hs (S (length (trace st)))). lra.
  - apply Qlt_bool_false in E. lra.
Qed.

Lemma throttled_trace (env : Environment) (throttle start : Q) (st : State) :
  exists evs,
    trace (throttled env throttle start st) = trace st ++ evs /\
    evaluate_starts evs = [] /\ evaluate_calls evs = [].
Proof.
  unfold throttled. destruct (Qlt_bool _ _).
  - eexists. split; [reflexivity|]. split; reflexivity.
  - exists []. rewrite app_nil_r. repeat split.
Qed.

Lemma throttled_self (env : Environment) (throttle start : Q) (st : State) :
  self (throttled env throttle start st) = self st.
Proof. unfold throttled. destruct (Qlt_bool _ _); reflexivity. Qed.

(** The throttle adds nothing, or a log line and a sleep, or, when
    [time.sleep] refuses the remainder, the log line alone. *)
Lemma throttle_wait_shape (env : Environment) (throttle start : Q)
    (st : State) :
  let res := throttle_wait env throttle start st in
  self (snd res) = self st /\ heap (snd res) = heap st /\
  exists th : list Stamped,
    trace (snd res) = trace st ++ th /\
    ((th = [] /\ res = (Returned tt, st) /\ throttle <= clock st - start) \/
     exists diff : Q,
       0 < diff /\ diff = throttle - (clock st - start) /\
       ((th = [(clock st, LogInfo throttle_fmt diff); (clock st, Sleep diff)] /\
         res = (Returned tt, slept env throttle_fmt diff st)) \/
        (th = [(clock st, LogInfo throttle_fmt diff)] /\
         exists ex,
           sleep_error env (S (length (trace st))) diff = Some ex /\
           fst res = Raised ex))).
Proof.
  intros res. subst res. unfold throttle_wait.
  destruct (Qlt_bool (clock st - start) throttle) eqn:E.
  - apply Qlt_bool_true in E.
    destruct (logged_sleep_cases env throttle_fmt
                (throttle - (clock st - start)) st)
      as [[_ ->] | (ex & He & ->)]; cbn [snd fst slept logged self heap trace].
    + repeat split. eexists. split; [reflexivity|]. right.
      exists (throttle - (clock st - start)). split; [lra|].
      split; [reflexivity|]. left. split; reflexivity.
    + repeat split. eexists. split; [reflexivity|]. right.
      exists (throttle - (clock st - start)). split; [lra|].
      split; [reflexivity|]. right. split; [reflexivity|].
      exists ex. split; [exact He | reflexivity].
  - apply Qlt_bool_false in E. repeat split.
    exists []. rewrite app_nil_r. split; [reflexivity|]. left.
    repeat split. exact E.
Qed.

(** The events of one turn: the call, then the warning if the call
    raised [NotFittedError], then what the throttle adds. *)
Lemma eval_iteration_shape (env : Environment) (input_fn : InputFn)
    (name : string) (throttle : Q) (st : State) :
  let c := eval_call (self st) input_fn name in
  let r := evaluate_response env (length (trace st)) (_estimator (self st)) c in
  let res := eval_iteration env input_fn name throttle st in
  self (snd res) = self st /\ heap (snd res) = heap st /\
  exists (w th : list Stamped),
    trace (snd res) =
      trace st ++ (clock st, Evaluate (_estimator (self st)) c) :: w ++ th /\
    (w = [] \/
     (w = [(clock st + took r, LogWarning not_fitted_msg)] /\
      outcome r = inl NotFittedError)) /\
    (th = [] \/
     exists (t diff : Q),
       0 < diff /\
       (th = [(t, LogInfo throttle_fmt diff); (t, Sleep diff)] \/
        (th = [(t, LogInfo throttle_fmt diff)] /\
         exists ex n, sleep_error env n diff = Some ex /\ fst res = Raised ex))).
Proof.
  intros c r res. subst res. rewrite eval_iteration_run. fold c r.
  assert (Hthr : forall s0 : State,
    let res := throttle_wait env throttle (clock st) s0 in
    self (snd res) = self s0 /\ heap (snd res) = heap s0 /\
    exists th,
      trace (snd res) = trace s0 ++ th /\
      (th = [] \/
       exists (t diff : Q),
         0 < diff /\
         (th = [(t, LogInfo throttle_fmt diff); (t, Sleep diff)] \/
          (th = [(t, LogInfo throttle_fmt diff)] /\
           exists ex n,
             sleep_error env n diff = Some ex /\ fst res = Raised ex)))).
  { intros s0.
    destruct (throttle_wait_shape env throttle (clock st) s0)
      as (Hs & Hh & th & Ht & Hth).
    cbv zeta. split; [exact Hs|]. split; [exact Hh|].
    exists th. split; [exact Ht|].
    destruct Hth as [(-> & _) | (diff & Hpos & _ & [(-> & _) | (-> & ex & He & Hf)])].
    - now left.
    - right. exists (clock s0), diff. split; [exact Hpos|]. now left.
    - right. exists (clock s0), diff. split; [exact Hpos|]. right.
      split; [reflexivity|]. exists ex, (S (length (trace s0))).
      split; assumption. }
  destruct (outcome r) as [ex|v] eqn:Hr.
  - destruct ex; cbn [is_NotFittedError snd].
    + destruct (Hthr (warned (evaluated env c st))) as (Hs & Hh & th & Ht & Hth).
      split; [exact Hs|]. split; [exact Hh|].
      exists [(clock st + took r, LogWarning not_fitted_msg)], th.
      split; [|split; [right; split; reflexivity | exact Hth]].
      rewrite Ht. cbn [warned evaluated trace clock]. fold r.
      rewrite <- !app_assoc. reflexivity.
    + repeat split. exists [], []. split; [reflexivity|]. split; now left.
    + repeat split. exists [], []. split; [reflexivity|]. split; now left.
    + repeat split. exists [], []. split; [reflexivity|]. split; now left.
  - cbn [snd].
    destruct (Hthr (evaluated env c st)) as (Hs & Hh & th & Ht & Hth).
    split; [exact Hs|]. split; [exact Hh|].
    exists [], th. split; [|split; [now left | exact Hth]].
    rewrite Ht. cbn [evaluated trace]. rewrite <- !app_assoc. reflexivity.
Qed.

Lemma paced_weaken (gap lo lo' : Q) (starts : list Q) :
  lo' <= lo -> paced gap lo starts -> paced gap lo' starts.
Proof.
  destruct starts as [|a rest]; cbn; [trivial|].
  intros Hlo [Ha Hrest]. split; [lra | exact Hrest].
Qed.

Lemma paced_spaced (gap lo : Q) (starts : list Q) :
  paced gap lo starts -> spaced gap starts.
Proof.
  revert lo. induction starts as [|a rest IH]; intros lo Hp i x y Hx Hy.
  - discriminate.
  - destruct Hp as [_ Hrest]. destruct i as [|i].
    + cbn in Hx, Hy. injection Hx as <-.
      destruct rest as [|b rest']; [discriminate|].
      cbn in Hy. injection Hy as <-. cbn in Hrest. tauto.
    + cbn in Hx, Hy. exact (IH _ Hrest i x y Hx Hy).
Qed.

Lemma evaluate_starts_app (xs ys : list Stamped) :
  evaluate_starts (xs ++ ys) = evaluate_starts xs ++ evaluate_starts ys.
Proof. apply omap_app. Qed.

Lemma evaluate_calls_app (xs ys : list Stamped) :
  evaluate_calls (xs ++ ys) = evaluate_calls xs ++ evaluate_calls ys.
Proof. apply omap_app. Qed.

Lemma eval_iteration_trace (env : Environment) (input_fn : InputFn)
    (name : string) (throttle : Q) (st : State) :
  let c := eval_call (self st) input_fn name in
  let res := eval_iteration env input_fn name throttle st in
  self (snd res) = self st /\
  exists evs,
    trace (snd res) =
      trace st ++ (clock st, Evaluate (_estimator (self st)) c) :: evs /\
    evaluate_starts evs = [] /\ evaluate_calls evs = [].
Proof.
  intros c res.
  destruct (eval_iteration_shape env input_fn name throttle st)
    as (Hs & _ & w & th & Ht & Hw & Hth).
  split; [exact Hs|]. exists (w ++ th). split; [exact Ht|].
  rewrite evaluate_starts_app, evaluate_calls_app.
  destruct Hw as [-> | [-> _]];
    destruct Hth as [-> | (t & diff & _ & [-> | [-> _]])];
    split; reflexivity.
Qed.

(** A turn either ends the loop, or hands over to the next turn no
    earlier than a throttle after it began; its call is its first
    event and its only call. *)
Lemma eval_iteration_cases (env : Environment) (input_fn : InputFn)
    (name : string) (throttle : Q) (st : State) :
  (forall n, 0 <= oversleep env n) ->
  let c := eval_call (self st) input_fn name in
  let res := eval_iteration env input_fn name throttle st in
  exists evs,
    trace (snd res) = trace st ++ (clock st, Evaluate (_estimator (self st)) c) :: evs /\
    evaluate_starts evs = [] /\ evaluate_calls evs = [] /\
    self (snd res) = self st /\
    ((exists ex, fst res = Raised ex) \/
     (fst res = Returned tt /\ clock st + throttle <= clock (snd res))).
Proof.
  intros Hs c res.
  destruct (eval_iteration_trace env input_fn name throttle st)
    as (Hself & evs & Ht & Hn & Hc).
  exists evs. split; [exact Ht|]. split; [exact Hn|]. split; [exact Hc|].
  split; [exact Hself|].
  subst res. rewrite eval_iteration_run. fold c.
  assert (Hthr : forall s0 : State,
    let res := throttle_wait env throttle (clock st) s0 in
    (exists ex, fst res = Raised ex) \/
    (fst res = Returned tt /\ clock st + throttle <= clock (snd res))).
  { intros s0. cbv zeta.
    destruct (throttle_wait_cases env throttle (clock st) s0)
      as [-> | (ex & _ & _ & ->)].
    - right. split; [reflexivity|]. now apply throttled_clock.
    - left. now exists ex. }
  destruct (outcome _) as [ex|v]; [destruct (is_NotFittedError ex)|].
  - apply Hthr.
  - left. now exists ex.
  - apply Hthr.
Qed.

Lemma while_true_paced (env : Environment) (input_fn : InputFn)
    (name : string) (throttle : Q) :
  (forall n, 0 <= oversleep env n) ->
  forall (fuel : nat) (st : State),
  exists evs,
    trace (snd (while_true fuel (eval_iteration env input_fn name throttle) st))
      = trace st ++ evs /\
    paced throttle (clock st) (evaluate_starts evs).
Proof.
  intros Hs. induction fuel as [|fuel IH]; intros st.
  - exists []. cbn. rewrite app_nil_r. split; trivial.
  - rewrite while_true_turn.
    destruct (eval_iteration_cases env input_fn name throttle st Hs)
      as (evs & Ht & Hn & _ & _ & Hres).
    destruct (eval_iteration env input_fn name throttle st) as [o st1].
    cbn [fst snd] in Ht, Hres.
    destruct Hres as [[ex ->] | [-> Hclock]].
    + eexists. cbn [snd]. split; [exact Ht|].
      cbn. fold (evaluate_starts evs). rewrite Hn. cbn. split; [lra|trivial].
    + destruct (IH st1) as (evs1 & Ht1 & Hp1).
      exists (((clock st, Evaluate (_estimator (self st))
                  (eval_call (self st) input_fn name)) :: evs) ++ evs1).
      split.
      * rewrite Ht1, Ht. rewrite <- app_assoc. reflexivity.
      * rewrite evaluate_starts_app. cbn. fold (evaluate_starts evs).
        rewrite Hn. cbn. split; [lra|].
        now apply (paced_weaken throttle (clock st1)).
Qed.

(** The first event of a loop that has a turn to run is its call. *)
Lemma while_true_first_call (env : Environment) (input_fn : InputFn)
    (name : string) (throttle : Q) (fuel : nat) (st : State) :
  exists rest,
    trace (snd (while_true (S fuel)
                  (eval_iteration env input_fn name throttle) st)) =
      trace st ++
      (clock st, Evaluate (_estimator (self st))
                   (eval_call (self st) input_fn name)) :: rest.
Proof.
  destruct (eval_iteration_trace env input_fn name throttle st)
    as (_ & evs & Ht & _).
  rewrite while_true_turn.
  destruct (eval_iteration env input_fn name throttle st) as [[[]|ex|] st1];
    cbn [snd] in Ht |- *; try (exists evs; exact Ht).
  assert (Hext : forall k s, exists evs1,
    trace (snd (while_true k (eval_iteration env input_fn name throttle) s))
      = trace s ++ evs1).
  { induction k as [|k IH]; intros s.
    - exists []. cbn. now rewrite app_nil_r.
    - rewrite while_true_turn.
      destruct (eval_iteration_trace env input_fn name throttle s)
        as (_ & evs' & Ht' & _).
      destruct (eval_iteration env input_fn name throttle s)
        as [[[]|ex|] s1]; cbn [snd] in Ht' |- *;
        try (eexists; exact Ht').
      destruct (IH s1) as (evs1 & Ht1).
      eexists. rewrite Ht1, Ht', <- app_assoc. reflexivity. }
  destruct (Hext fuel st1) as (evs1 & Ht1).
  exists (evs ++ evs1). rewrite Ht1, Ht, <- !app_assoc. reflexivity.
Qed.

(** The pacing of a whole run. *)
Lemma continuous_eval_spaced (env : Environment) (input_fn : InputFn)
    (name : string) (d throttle : Q) (fuel : nat) (st : State) :
  (forall n, 0 <= oversleep env n) ->
  exists evs : list Stamped,
    trace (snd (_continuous_eval env fuel input_fn name d throttle st)) =
      trace st ++ evs /\
    spaced throttle (evaluate_starts evs).
Proof.
  intros Hs.
  destruct (continuous_eval_cases env fuel input_fn name d throttle st)
    as [-> | (ex & ->)].
  - destruct (delayed_trace env continuous_delay_fmt d st)
      as (pre & Hpre & _ & Hn & _).
    destruct (while_true_paced env input_fn name throttle Hs fuel
                (delayed env continuous_delay_fmt d st)) as (evs & Ht & Hp).
    exists (pre ++ evs). split.
    + rewrite Ht, Hpre, <- app_assoc. reflexivity.
    + rewrite evaluate_starts_app, Hn. exact (paced_spaced _ _ _ Hp).
  - cbn [snd logged trace]. eexists. split; [reflexivity|].
    intros i a b Ha. destruct i; discriminate.
Qed.
(** *** [local_run] *)

Lemma local_run_prepared (env : Environment) (st : State) :
  local_run env st = (train env 0 ;; evaluate env 0) (prepared st).
Proof.
  unfold local_run. unfold bind at 1. unfold get_self at 1. cbn beta iota.
  unfold bind at 1.
  assert (Hor : or_empty_list (_train_monitors (self st)) st =
                (Returned (monitors_ref st),
                 {| self := self st; heap := defaulted_heap st;
                    clock := clock st; trace := trace st |})).
  { unfold or_empty_list, monitors_ref, defaulted_heap, new_list.
    destruct (_train_monitors (self st)) as [l|]; cbn [truthy_list].
    - destruct (heap st !! l) as [[|x xs]|]; try reflexivity.
      destruct st; reflexivity.
    - reflexivity. }
  rewrite Hor. unfold bind at 1. unfold set_train_monitors at 1.
  cbn beta iota. unfold bind at 1. unfold get_self at 1. cbn beta iota.
  unfold bind at 1. cbn [self with_train_monitors _local_eval_frequency].
  unfold prepared, periodic_monitors.
  destruct (truthy_steps (_local_eval_frequency (self st))) as [n|];
    reflexivity.
Qed.

Lemma prepared_lookup (st : State) :
  heap (prepared st) !! monitors_ref st =
    Some (monitors_of st ++ periodic_monitors (self st)).
Proof.
  assert (Hd : defaulted_heap st !! monitors_ref st = Some (monitors_of st)).
  { unfold defaulted_heap, monitors_ref, monitors_of.
    destruct (_train_monitors (self st)) as [l|]; cbn [truthy_list].
    - destruct (heap st !! l) as [[|x xs]|] eqn:E; cbn [default].
      + now apply list_lookup_middle.
      + exact E.
      + now apply list_lookup_middle.
    - now apply list_lookup_middle. }
  unfold prepared. cbn [heap]. unfold periodic_monitors.
  destruct (truthy_steps (_local_eval_frequency (self st))) as [n|].
  - rewrite list_lookup_alter_eq, Hd. reflexivity.
  - rewrite Hd, app_nil_r. reflexivity.
Qed.

Lemma prepared_monitors (st : State) :
  monitors_of (prepared st) = monitors_of st ++ periodic_monitors (self st).
Proof.
  unfold monitors_of at 1. cbn [prepared self with_train_monitors _train_monitors].
  fold (prepared st). now rewrite prepared_lookup.
Qed.

(** Lists that were there before [local_run] and are not the one it
    works on keep their contents. *)
Lemma prepared_frame (st : State) (l : loc) :
  (l < length (heap st))%nat -> l <> monitors_ref st ->
  heap (prepared st) !! l = heap st !! l.
Proof.
  intros Hl Hne.
  assert (Hd : defaulted_heap st !! l = heap st !! l).
  { unfold defaulted_heap. destruct (truthy_list _ _); [reflexivity|].
    now apply lookup_app_l. }
  unfold prepared. cbn [heap].
  destruct (truthy_steps (_local_eval_frequency (self st))) as [n|].
  - rewrite list_lookup_alter_ne by congruence. exact Hd.
  - exact Hd.
Qed.

Lemma local_run_run (env : Environment) (st : State) :
  let p := prepared st in
  let est := _estimator (self st) in
  let fit_c := train_call (self p) in
  let eval_c := eval_call (self st) (_eval_input_fn (self st)) "one_pass" in
  local_run env st =
    match outcome (fit_response env (length (trace st)) est fit_c) with
    | inl ex => (Raised ex, fitted env fit_c p)
    | inr _ =>
        (outcome_of (evaluate_response env (length (trace (fitted env fit_c p)))
                       est eval_c),
         evaluated env eval_c (fitted env fit_c p))
    end.
Proof.
  intros p est fit_c eval_c. rewrite local_run_prepared. fold p.
  unfold bind. rewrite train_now. fold fit_c.
  unfold outcome_of at 1.
  change (_estimator (self p)) with est.
  change (length (trace p)) with (length (trace st)).
  destruct (outcome _) as [ex|v]; [reflexivity|].
  rewrite evaluate_now. reflexivity.
Qed.

Lemma local_run_self (env : Environment) (st : State) :
  self (snd (local_run env st)) =
    with_train_monitors (self st) (Some (monitors_ref st)).
Proof.
  rewrite local_run_run. cbv zeta.
  destruct (outcome _); reflexivity.
Qed.

Lemma local_run_heap (env : Environment) (st : State) :
  heap (snd (local_run env st)) = heap (prepared st).
Proof.
  rewrite local_run_run. cbv zeta.
  destruct (outcome _); reflexivity.
Qed.

Lemma local_run_monitors (env : Environment) (st : State) :
  monitors_of (snd (local_run env st)) =
    monitors_of st ++ periodic_monitors (self st).
Proof.
  rewrite <- prepared_monitors. unfold monitors_of.
  now rewrite local_run_self, local_run_heap.
Qed.

Lemma periodic_monitors_set (e : Experiment) (n : Z) :
  _local_eval_frequency e = Some n -> n <> 0%Z ->
  periodic_monitors e =
    [ValidationMonitor (_eval_input_fn e) (_eval_steps e) (_eval_metrics e) n].
Proof.
  intros Hf Hn. unfold periodic_monitors. rewrite Hf. cbn.
  destruct (Z.eqb_spec n 0); [contradiction | reflexivity].
Qed.

(** *** Turns that complete *)

(** When [time.sleep] accepts every length up to the throttle and the
    call took no negative time, the throttle of a turn is over in the
    state [throttled]. *)
Lemma throttle_wait_after_call (env : Environment) (throttle : Q)
    (c : EvaluateCall) (st : State) :
  (forall n est c', 0 <= took (evaluate_response env n est c')) ->
  sleeps_up_to env throttle ->
  throttle_wait env throttle (clock st) (evaluated env c st) =
    (Returned tt, throttled env throttle (clock st) (evaluated env c st)) /\
  throttle_wait env throttle (clock st) (warned (evaluated env c st)) =
    (Returned tt,
     throttled env throttle (clock st) (warned (evaluated env c st))).
Proof.
  intros Htook Hs.
  pose proof (Htook (length (trace st)) (_estimator (self st)) c) as Hr.
  split; apply throttle_wait_ok; try exact Hs;
    cbn [warned evaluated clock]; lra.
Qed.

(** As long as the Estimator answers with a value or with
    [NotFittedError], every turn completes, and the loop makes as many
    calls as it is given turns. *)
Lemma while_true_keeps_going (env : Environment) (input_fn : InputFn)
    (name : string) (throttle : Q) :
  (forall n est c, 0 <= took (evaluate_response env n est c)) ->
  sleeps_up_to env throttle ->
  (forall n est c, recoverable (outcome (evaluate_response env n est c)) = true) ->
  forall (fuel : nat) (st : State),
  let res := while_true fuel (eval_iteration env input_fn name throttle) st in
  fst res = Running /\
  exists evs,
    trace (snd res) = trace st ++ evs /\
    length (evaluate_calls evs) = fuel.
Proof.
  intros Htook Hs Hrec. induction fuel as [|fuel IH]; intros st res; subst res.
  - cbn. split; [reflexivity|]. exists []. now rewrite app_nil_r.
  - rewrite while_true_turn.
    destruct (eval_iteration_trace env input_fn name throttle st)
      as (_ & evs & Ht & _ & Hcalls).
    pose proof (eval_iteration_run env input_fn name throttle st) as Hrun.
    cbv zeta in Hrun.
    destruct (throttle_wait_after_call env throttle
                (eval_call (self st) input_fn name) st Htook Hs)
      as (Hplain & Hwarned).
    specialize (Hrec (length (trace st)) (_estimator (self st))
                  (eval_call (self st) input_fn name)).
    destruct (outcome _) as [ex|v]; cbn [recoverable] in Hrec;
      [rewrite Hrec, Hwarned in Hrun | rewrite Hplain in Hrun];
      rewrite Hrun in Ht |- *; cbn [snd] in Ht |- *.
    + match goal with |- context [while_true fuel _ ?s1] =>
        destruct (IH s1) as (Hr & evs1 & Ht1 & Hlen) end.
      split; [exact Hr|]. eexists. split.
      * rewrite Ht1, Ht, <- app_assoc. reflexivity.
      * rewrite evaluate_calls_app. cbn. fold (evaluate_calls evs).
        rewrite Hcalls. cbn. now rewrite Hlen.
    + match goal with |- context [while_true fuel _ ?s1] =>
        destruct (IH s1) as (Hr & evs1 & Ht1 & Hlen) end.
      split; [exact Hr|]. eexists. split.
      * rewrite Ht1, Ht, <- app_assoc. reflexivity.
      * rewrite evaluate_calls_app. cbn. fold (evaluate_calls evs).
        rewrite Hcalls. cbn. now rewrite Hlen.
Qed.
(** *** Retagged runs *)

Lemma alike_length (fn : InputFn) (name : string) (base : list Stamped)
    (sa sb : State) :
  alike fn name base sa sb -> length (trace sa) = length (trace sb).
Proof.
  intros (_ & _ & _ & evs & -> & ->).
  now rewrite !length_app, length_map.
Qed.

Lemma alike_slept (env : Environment) (fn : InputFn) (name : string)
    (base : list Stamped) (fmt : string) (d : Q) (sa sb : State) :
  alike fn name base sa sb ->
  alike fn name base (slept env fmt d sa) (slept env fmt d sb).
Proof.
  intros H. pose proof (alike_length _ _ _ _ _ H) as Hlen.
  destruct H as (Hs & Hh & Hc & evs & Ha & Hb).
  unfold alike, slept. cbn [self heap clock trace].
  rewrite Hs, Hh, Hc, Hlen. repeat split.
  exists (evs ++ [(clock sb, LogInfo fmt d); (clock sb, Sleep d)]).
  rewrite Ha, Hb, map_app, <- !app_assoc. split; reflexivity.
Qed.

Lemma alike_warned (fn : InputFn) (name : string) (base : list Stamped)
    (sa sb : State) :
  alike fn name base sa sb -> alike fn name base (warned sa) (warned sb).
Proof.
  intros (Hs & Hh & Hc & evs & Ha & Hb).
  unfold alike, warned. cbn [self heap clock trace].
  rewrite Hs, Hh, Hc. repeat split.
  exists (evs ++ [(clock sb, LogWarning not_fitted_msg)]).
  rewrite Ha, Hb, map_app, <- !app_assoc. split; reflexivity.
Qed.

Lemma alike_throttled (env : Environment) (fn : InputFn) (name : string)
    (base : list Stamped) (throttle start : Q) (sa sb : State) :
  alike fn name base sa sb ->
  alike fn name base (throttled env throttle start sa)
    (throttled env throttle start sb).
Proof.
  intros H. unfold throttled.
  assert (Hc : clock sa = clock sb) by apply H. rewrite Hc.
  destruct (Qlt_bool _ _); [|exact H].
  now apply alike_slept.
Qed.

Lemma alike_evaluated (env : Environment) (fn fn' : InputFn)
    (name name' : string) (base : list Stamped) (sa sb : State) :
  tag_blind env ->
  alike fn name base sa sb ->
  alike fn name base (evaluated env (eval_call (self sa) fn' name') sa)
    (evaluated env (eval_call (self sb) fn name) sb).
Proof.
  intros Hb H. pose proof (alike_length _ _ _ _ _ H) as Hlen.
  destruct H as (Hs & Hh & Hc & evs & Hta & Htb).
  unfold alike, evaluated. cbn [self heap clock trace].
  rewrite Hs, Hh, Hc, Hlen.
  rewrite (Hb _ _ (eval_call (self sb) fn' name') (eval_call (self sb) fn name))
    by reflexivity.
  repeat split.
  exists (evs ++ [(clock sb, Evaluate (_estimator (self sb))
                               (eval_call (self sb) fn' name'))]).
  rewrite Hta, Htb, map_app, <- !app_assoc. split; reflexivity.
Qed.

Lemma alike_logged (fn : InputFn) (name : string) (base : list Stamped)
    (fmt : string) (d : Q) (sa sb : State) :
  alike fn name base sa sb ->
  alike fn name base (logged fmt d sa) (logged fmt d sb).
Proof.
  intros (Hs & Hh & Hc & evs & Ha & Hb).
  unfold alike, logged. cbn [self heap clock trace].
  rewrite Hs, Hh, Hc. repeat split.
  exists (evs ++ [(clock sb, LogInfo fmt d)]).
  rewrite Ha, Hb, map_app, <- !app_assoc. split; reflexivity.
Qed.

Lemma alike_throttle_wait (env : Environment) (fn : InputFn) (name : string)
    (base : list Stamped) (throttle start : Q) (sa sb : State) :
  alike fn name base sa sb ->
  fst (throttle_wait env throttle start sa) =
    fst (throttle_wait env throttle start sb) /\
  alike fn name base (snd (throttle_wait env throttle start sa))
    (snd (throttle_wait env throttle start sb)).
Proof.
  intros H. pose proof (alike_length _ _ _ _ _ H) as Hlen.
  assert (Hc : clock sa = clock sb) by apply H.
  unfold throttle_wait, logged_sleep. rewrite Hc, Hlen.
  destruct (Qlt_bool _ _); [|split; [reflexivity | exact H]].
  destruct (sleep_error env _ _); cbn [fst snd].
  - split; [reflexivity|]. now apply alike_logged.
  - split; [reflexivity|]. now apply alike_slept.
Qed.

Lemma while_true_alike (env : Environment) (fn fn' : InputFn)
    (name name' : string) (base : list Stamped) (throttle : Q) :
  tag_blind env ->
  forall (fuel : nat) (sa sb : State),
  alike fn name base sa sb ->
  let ra := while_true fuel (eval_iteration env fn' name' throttle) sa in
  let rb := while_true fuel (eval_iteration env fn name throttle) sb in
  fst ra = fst rb /\ alike fn name base (snd ra) (snd rb).
Proof.
  intros Hb. induction fuel as [|fuel IH]; intros sa sb H ra rb;
    subst ra rb.
  - cbn. split; [reflexivity | exact H].
  - rewrite !while_true_turn, !eval_iteration_run.
    pose proof (alike_evaluated env fn fn' name name' base sa sb Hb H) as He.
    assert (Hr : evaluate_response env (length (trace sa))
                   (_estimator (self sa)) (eval_call (self sa) fn' name') =
                 evaluate_response env (length (trace sb))
                   (_estimator (self sb)) (eval_call (self sb) fn name)).
    { rewrite (alike_length _ _ _ _ _ H).
      destruct H as (Hs & _). rewrite Hs. now apply Hb. }
    assert (Hc : clock sa = clock sb) by apply H.
    rewrite Hr, Hc.
    assert (Hthr : forall s1 s2 : State,
      alike fn name base s1 s2 ->
      let ta := throttle_wait env throttle (clock sb) s1 in
      let tb := throttle_wait env throttle (clock sb) s2 in
      fst (match ta with
           | (Returned _, st') =>
               while_true fuel (eval_iteration env fn' name' throttle) st'
           | (Raised e, st') => (Raised e, st')
           | (Running, st') => (Running, st')
           end) =
      fst (match tb with
           | (Returned _, st') =>
               while_true fuel (eval_iteration env fn name throttle) st'
           | (Raised e, st') => (Raised e, st')
           | (Running, st') => (Running, st')
           end) /\
      alike fn name base
        (snd (match ta with
              | (Returned _, st') =>
                  while_true fuel (eval_iteration env fn' name' throttle) st'
              | (Raised e, st') => (Raised e, st')
              | (Running, st') => (Running, st')
              end))
        (snd (match tb with
              | (Returned _, st') =>
                  while_true fuel (eval_iteration env fn name throttle) st'
              | (Raised e, st') => (Raised e, st')
              | (Running, st') => (Running, st')
              end))).
    { intros s1 s2 H12 ta tb. subst ta tb.
      destruct (alike_throttle_wait env fn name base throttle (clock sb)
                  s1 s2 H12) as (Hf & Ha).
      destruct (throttle_wait env throttle (clock sb) s1) as [oa s1'].
      destruct (throttle_wait env throttle (clock sb) s2) as [ob s2'].
      cbn [fst snd] in Hf, Ha. subst ob.
      destruct oa as [[]|ex|].
      - now apply IH.
      - split; [reflexivity | exact Ha].
      - split; [reflexivity | exact Ha]. }
    destruct (outcome _) as [ex|v].
    + destruct (is_NotFittedError ex).
      * apply Hthr. now apply alike_warned.
      * cbn [fst snd]. split; [reflexivity | exact He].
    + apply Hthr. exact He.
Qed.

(** *** The calls of a run *)

Lemma while_true_calls (env : Environment) (input_fn : InputFn)
    (name : string) (throttle : Q) (fuel : nat) (st : State) :
  exists evs,
    trace (snd (while_true fuel (eval_iteration env input_fn name throttle) st))
      = trace st ++ evs /\
    Forall (fun c => c = eval_call (self st) input_fn name)
      (evaluate_calls evs).
Proof.
  revert st. induction fuel as [|fuel IH]; intros st.
  - exists []. cbn. rewrite app_nil_r. split; [reflexivity | constructor].
  - rewrite while_true_turn.
    destruct (eval_iteration_trace env input_fn name throttle st)
      as (Hself & evs & Ht & _ & Hc).
    destruct (eval_iteration env input_fn name throttle st) as [[[]|ex|] st1];
      cbn [snd] in Hself, Ht.
    + destruct (IH st1) as (evs1 & Ht1 & Hall). rewrite Hself in Hall.
      eexists. split; [rewrite Ht1, Ht, <- app_assoc; reflexivity|].
      rewrite evaluate_calls_app. cbn.
      fold (evaluate_calls evs). rewrite Hc. cbn.
      constructor; [reflexivity | exact Hall].
    + eexists. cbn [snd]. split; [exact Ht|].
      cbn. fold (evaluate_calls evs). rewrite Hc. repeat constructor.
    + eexists. cbn [snd]. split; [exact Ht|].
      cbn. fold (evaluate_calls evs). rewrite Hc. repeat constructor.
Qed.

Lemma continuous_eval_calls (env : Environment) (input_fn : InputFn)
    (name : string) (d throttle : Q) (fuel : nat) (st : State) :
  exists evs,
    trace (snd (_continuous_eval env fuel input_fn name d throttle st))
      = trace st ++ evs /\
    Forall (fun c => c = eval_call (self st) input_fn name)
      (evaluate_calls evs).
Proof.
  destruct (continuous_eval_cases env fuel input_fn name d throttle st)
    as [-> | (ex & ->)].
  - destruct (delayed_trace env continuous_delay_fmt d st)
      as (pre & Hpre & _ & _ & Hc).
    destruct (while_true_calls env input_fn name throttle fuel
                (delayed env continuous_delay_fmt d st)) as (evs & Ht & Hall).
    rewrite delayed_self in Hall.
    exists (pre ++ evs). split.
    + rewrite Ht, Hpre, <- app_assoc. reflexivity.
    + rewrite evaluate_calls_app, Hc. exact Hall.
  - cbn [snd logged trace]. eexists. split; [reflexivity | constructor].
Qed.

Lemma alike_refl (fn : InputFn) (name : string) (st : State) :
  alike fn name (trace st) st st.
Proof.
  repeat split. exists []. cbn. now rewrite app_nil_r.
Qed.

(** *** The sample collaborators *)

Lemma cpython_sleeps_up_to (env : Environment) (bound : Q) :
  sleep_error env = cpython_sleep_error ->
  bound <= sleep_limit -> sleeps_up_to env bound.
Proof.
  intros He Hb n secs H0 Hle. rewrite He. unfold cpython_sleep_error.
  assert (H1 : Qlt_bool secs sleep_min = false).
  { apply Qlt_bool_false. unfold sleep_min.
    eapply Qle_trans; [|exact H0]. discriminate. }
  assert (H2 : Qlt_bool sleep_limit secs = false).
  { apply Qlt_bool_false. lra. }
  assert (H3 : Qlt_bool secs 0 = false) by (now apply Qlt_bool_false).
  now rewrite H1, H2, H3.
Qed.

Lemma cpython_refuses_negative (env : Environment) :
  sleep_error env = cpython_sleep_error -> refuses_negative env.
Proof.
  intros He n secs Hneg. rewrite He. unfold cpython_sleep_error.
  destruct (Qlt_bool secs sleep_min || Qlt_bool sleep_limit secs);
    [discriminate|].
  apply Qlt_bool_true in Hneg. rewrite Hneg. discriminate.
Qed.

Lemma steady_env_well_behaved : well_behaved steady_env.
Proof. repeat split; intros; cbn; lra. Qed.

Lemma unfitted_env_well_behaved : well_behaved unfitted_env.
Proof. repeat split; intros; cbn; lra. Qed.

Lemma failing_env_well_behaved : well_behaved failing_env.
Proof. repeat split; intros; cbn; lra. Qed.

Lemma slow_env_well_behaved : well_behaved slow_env.
Proof. repeat split; intros; cbn; lra. Qed.

Lemma steady_env_tag_blind : tag_blind steady_env.
Proof. intros n est c c' _ _. reflexivity. Qed.

(** ** Sample runs *)

(** A 10-second evaluation under a 60-second throttle is followed by a
    50-second sleep. *)
Example throttle_after_short_evaluation :
  trace (snd (eval_iteration steady_env (InputFnObj 2) "continuous" 60
                (fresh_state sample_experiment))) =
    [(0, Evaluate sample_estimator
           (eval_call sample_experiment (InputFnObj 2) "continuous"));
     (10, LogInfo throttle_fmt 50);
     (10, Sleep 50)].
Proof. vm_compute. reflexivity. Qed.

(** A 70-second evaluation under the same throttle is followed by
    nothing. *)
Example no_throttle_after_long_evaluation :
  eval_iteration slow_env (InputFnObj 2) "continuous" 60
    (fresh_state sample_experiment) =
    (Returned tt,
     {| self := sample_experiment; heap := []; clock := 0 + 70;
        trace :=
          [(0, Evaluate sample_estimator
                 (eval_call sample_experiment (InputFnObj 2) "continuous"))] |}).
Proof. vm_compute. reflexivity. Qed.

(** Three turns against an Estimator without checkpoint: three calls,
    three warnings, three sleeps, and the loop is still going. *)
Example three_turns_unfitted :
  let res := _continuous_eval unfitted_env 3 (InputFnObj 2) "continuous" 0 60
               (fresh_state sample_experiment) in
  fst res = Running /\
  map fst (List.filter is_estimator_call (trace (snd res))) = [0; 60; 120] /\
  length (List.filter is_sleep (trace (snd res))) = 3%nat.
Proof. vm_compute. repeat split. Qed.

(** A negative delay makes [time.sleep] raise before the Estimator is
    reached. *)
Example negative_delay_raises :
  train steady_env (-3) (fresh_state sample_experiment) =
    (Raised ValueError,
     {| self := sample_experiment; heap := []; clock := 0;
        trace := [(0, LogInfo training_delay_fmt (-3))] |}).
Proof. vm_compute. reflexivity. Qed.

(** So does a delay too long for [time.sleep] to turn into a timeout. *)
Example overlong_delay_raises :
  train steady_env 10000000000 (fresh_state sample_experiment) =
    (Raised OverflowError,
     {| self := sample_experiment; heap := []; clock := 0;
        trace := [(0, LogInfo training_delay_fmt 10000000000)] |}).
Proof. vm_compute. reflexivity. Qed.

(** Under a throttle too long for [time.sleep], the loop ends after its
    first evaluation, on the sleep. *)
Example overlong_throttle_ends_the_loop :
  let res := _continuous_eval steady_env 5 (InputFnObj 2) "continuous" 0
               10000000000 (fresh_state sample_experiment) in
  fst res = Raised OverflowError /\
  map snd (trace (snd res)) =
    [Evaluate sample_estimator
       (eval_call sample_experiment (InputFnObj 2) "continuous");
     LogInfo throttle_fmt 9999999990].
Proof. vm_compute. split; reflexivity. Qed.

(** [local_run] on an experiment that was given a list with one monitor
    and a frequency of 5: the list object of the caller grows. *)
Example local_run_extends_the_given_list :
  let st' := snd (local_run steady_env monitored_state) in
  _train_monitors (self st') = Some 0%nat /\
  heap st' =
    [[UserMonitor 1; ValidationMonitor (InputFnObj 2) (Some 100%Z) None 5]] /\
  map snd (trace st') =
    [Fit sample_estimator
       {| fit_input_fn := InputFnObj 1; fit_max_steps := Some 1000%Z;
          fit_monitors := Some 0%nat |};
     Evaluate sample_estimator
       (eval_call sample_experiment (InputFnObj 2) "one_pass")].
Proof. vm_compute. repeat split. Qed.

(** *** Waits that [time.sleep] accepts *)

Lemma initial_delay_accepted (env : Environment) (fmt : string) (d : Q)
    (st : State) :
  (~ d == 0 -> sleep_error env (S (length (trace st))) d = None) ->
  initial_delay env fmt d st = (Returned tt, delayed env fmt d st).
Proof.
  intros Hacc.
  destruct (initial_delay_cases env fmt d st) as [H | (ex & Ht & He & _)];
    [exact H|].
  apply truthy_Q_true in Ht. rewrite (Hacc Ht) in He. discriminate.
Qed.


Lemma train_accepted (env : Environment) (d : Q) (st : State) :
  (~ d == 0 -> sleep_error env (S (length (trace st))) d = None) ->
  train env d st =
    (outcome_of (fit_response env
                   (length (trace (delayed env training_delay_fmt d st)))
                   (_estimator (self st)) (train_call (self st))),
     fitted env (train_call (self st)) (delayed env training_delay_fmt d st)).
Proof.
  intros Hacc. rewrite train_unfold, initial_delay_accepted by exact Hacc.
  rewrite delayed_self. reflexivity.
Qed.

Lemma evaluate_accepted (env : Environment) (d : Q) (st : State) :
  (~ d == 0 -> sleep_error env (S (length (trace st))) d = None) ->
  evaluate env d st =
    (outcome_of (evaluate_response env
                   (length (trace (delayed env eval_delay_fmt d st)))
                   (_estimator (self st)) (eval_call (self st)
                      (_eval_input_fn (self st)) "one_pass")),
     evaluated env (eval_call (self st) (_eval_input_fn (self st)) "one_pass")
       (delayed env eval_delay_fmt d st)).
Proof.
  intros Hacc. rewrite evaluate_unfold, initial_delay_accepted by exact Hacc.
  rewrite delayed_self. reflexivity.
Qed.

Lemma continuous_eval_accepted (env : Environment) (fuel : nat)
    (input_fn : InputFn) (name : string) (d throttle : Q) (st : State) :
  (~ d == 0 -> sleep_error env (S (length (trace st))) d = None) ->
  _continuous_eval env fuel input_fn name d throttle st =
    while_true fuel (eval_iteration env input_fn name throttle)
      (delayed env continuous_delay_fmt d st).
Proof.
  intros Hacc.
  rewrite continuous_eval_unfold, initial_delay_accepted by exact Hacc.
  reflexivity.
Qed.

(** *** The loop, turn after turn *)



Lemma while_true_frame (env : Environment) (input_fn : InputFn)
    (name : string) (throttle : Q) (fuel : nat) (st : State) :
  let res := while_true fuel (eval_iteration env input_fn name throttle) st in
  self (snd res) = self st /\ heap (snd res) = heap st.
Proof.
  revert st. induction fuel as [|fuel IH]; intros st res; subst res.
  - split; reflexivity.
  - rewrite while_true_turn.
    destruct (eval_iteration_shape env input_fn name throttle st)
      as (Hs & Hh & _).
    destruct (eval_iteration env input_fn name throttle st) as [[[]|ex|] st1];
      cbn [snd] in Hs, Hh |- *; try (split; assumption).
    destruct (IH st1) as (Hs1 & Hh1). split; congruence.
Qed.

(** ** Properties of the methods *)

(** C3: [train] invokes [Estimator.fit] once, on the stored estimator,
    with the stored [train_input_fn] as [input_fn], the stored
    [train_steps] as [max_steps] and the stored [train_monitors] as
    [monitors], each exactly as stored, and what [train] returns or
    raises is what that call returns or raises.  Nothing but the
    optional wait comes before the call, and the experiment and its
    monitor list are left as they were.  This holds for [train()],
    where [time.sleep] is not called, and for every delay that
    [time.sleep] accepts. *)
Theorem train_passes_stored_configuration (env : Environment) (d : Q)
    (st : State) :
  (~ d == 0 -> sleep_error env (S (length (trace st))) d = None) ->
  let e := self st in
  let c := {| fit_input_fn := _train_input_fn e;
              fit_max_steps := _train_steps e;
              fit_monitors := _train_monitors e |} in
  exists (pre : list Stamped) (t : Q),
    List.filter is_estimator_call pre = [] /\
    trace (snd (train env d st)) = trace st ++ pre ++ [(t, Fit (_estimator e) c)] /\
    fst (train env d st) =
      outcome_of (fit_response env (length (trace st ++ pre)) (_estimator e) c) /\
    self (snd (train env d st)) = e /\
    heap (snd (train env d st)) = heap st.
Proof.
  intros Hacc e c. rewrite train_accepted by exact Hacc. cbn [fst snd].
  destruct (delayed_trace env training_delay_fmt d st)
    as (pre & Ht & Hpre & _).
  exists pre, (clock (delayed env training_delay_fmt d st)).
  split; [exact Hpre|]. cbn [fitted trace self heap].
  rewrite Ht, delayed_self, delayed_heap, <- app_assoc.
  repeat split.
Qed.

Lemma train_passes_stored_configuration_witness :
  let st := fresh_state sample_experiment in
  let c := {| fit_input_fn := InputFnObj 1;
              fit_max_steps := Some 1000%Z;
              fit_monitors := None |} in
  sleep_error steady_env (S (length (trace st))) 3 = None /\
  (forall env : Environment,
     trace (snd (train env 0 st)) = [(0, Fit sample_estimator c)] /\
     fst (train env 0 st) =
       outcome_of (fit_response env 0 sample_estimator c)) /\
  exists (pre : list Stamped) (t : Q),
    trace (snd (train steady_env 3 st)) = pre ++ [(t, Fit sample_estimator c)] /\
    fst (train steady_env 3 st) = Returned (VEstimator sample_estimator).
Proof.
  intros st c.
  assert (Hacc : sleep_error steady_env (S (length (trace st))) 3 = None)
    by reflexivity.
  split; [exact Hacc|]. split.
  - intros env.
    assert (H0 : ~ 0 == 0 ->
                 sleep_error env (S (length (trace st))) 0 = None).
    { intros H. destruct H. reflexivity. }
    destruct (train_passes_stored_configuration env 0 st H0)
      as (pre & t & _ & Ht & Ho & _).
    rewrite train_now in Ht, Ho |- *. split; reflexivity.
  - destruct (train_passes_stored_configuration steady_env 3 st
                (fun _ => Hacc))
      as (pre & t & _ & Ht & Ho & _).
    exists pre, t. split; [exact Ht | exact Ho].
Defined.

(** C4: [evaluate] invokes [Estimator.evaluate] once, on the stored
    estimator, with the stored [eval_input_fn], [eval_steps] and
    [eval_metrics] and with the name ["one_pass"], and what [evaluate]
    returns or raises is what that call returns or raises.  This holds
    for [evaluate()], where [time.sleep] is not called, and for every
    delay that [time.sleep] accepts. *)
Theorem evaluate_uses_one_pass (env : Environment) (d : Q) (st : State) :
  (~ d == 0 -> sleep_error env (S (length (trace st))) d = None) ->
  let e := self st in
  let c := {| evaluate_input_fn := _eval_input_fn e;
              evaluate_steps := _eval_steps e;
              evaluate_metrics := _eval_metrics e;
              evaluate_name := "one_pass" |} in
  exists (pre : list Stamped) (t : Q),
    List.filter is_estimator_call pre = [] /\
    trace (snd (evaluate env d st)) =
      trace st ++ pre ++ [(t, Evaluate (_estimator e) c)] /\
    fst (evaluate env d st) =
      outcome_of (evaluate_response env (length (trace st ++ pre))
                    (_estimator e) c) /\
    self (snd (evaluate env d st)) = e /\
    heap (snd (evaluate env d st)) = heap st.
Proof.
  intros Hacc e c. rewrite evaluate_accepted by exact Hacc. cbn [fst snd].
  destruct (delayed_trace env eval_delay_fmt d st) as (pre & Ht & Hpre & _).
  exists pre, (clock (delayed env eval_delay_fmt d st)).
  split; [exact Hpre|]. cbn [evaluated trace self heap].
  rewrite Ht, delayed_self, delayed_heap, <- app_assoc.
  repeat split.
Qed.

Lemma evaluate_uses_one_pass_witness :
  let st := fresh_state sample_experiment in
  let c := {| evaluate_input_fn := InputFnObj 2;
              evaluate_steps := Some 100%Z;
              evaluate_metrics := None;
              evaluate_name := "one_pass" |} in
  sleep_error steady_env (S (length (trace st))) 3 = None /\
  (forall env : Environment,
     trace (snd (evaluate env 0 st)) = [(0, Evaluate sample_estimator c)] /\
     fst (evaluate env 0 st) =
       outcome_of (evaluate_response env 0 sample_estimator c)) /\
  exists (pre : list Stamped) (t : Q),
    trace (snd (evaluate steady_env 3 st)) =
      pre ++ [(t, Evaluate sample_estimator c)] /\
    fst (evaluate steady_env 3 st) = Returned (VResults [("loss", 1 # 2)]).
Proof.
  intros st c.
  assert (Hacc : sleep_error steady_env (S (length (trace st))) 3 = None)
    by reflexivity.
  split; [exact Hacc|]. split.
  - intros env.
    assert (H0 : ~ 0 == 0 ->
                 sleep_error env (S (length (trace st))) 0 = None).
    { intros H. destruct H. reflexivity. }
    destruct (evaluate_uses_one_pass env 0 st H0)
      as (pre & t & _ & Ht & Ho & _).
    rewrite evaluate_now in Ht, Ho |- *. split; reflexivity.
  - destruct (evaluate_uses_one_pass steady_env 3 st (fun _ => Hacc))
      as (pre & t & _ & Ht & Ho & _).
    exists pre, t. split; [exact Ht | exact Ho].
Defined.

(** C8: with [delay_secs > 0], [train], [evaluate] and
    [_continuous_eval] first log the wait and call [time.sleep] on
    [delay_secs].  When [time.sleep] accepts the length, the sleep is
    the next event and the Estimator is invoked after it, at an instant
    [t] no earlier than [delay_secs] after the method was entered.
    When [time.sleep] refuses the length, the method ends with its
    exception, the log line is its only event and the Estimator is not
    invoked at all.  With [delay_secs = 0] there is neither log line
    nor sleep: the first event is the call of the Estimator, at the
    instant the method was entered. *)
Theorem initial_delay_blocks (env : Environment) (d : Q) (st : State)
    (fuel : nat) (input_fn : InputFn) (name : string) (throttle : Q) :
  well_behaved env ->
  let e := self st in
  let fit_ev := Fit (_estimator e) (train_call e) in
  let eval_ev := Evaluate (_estimator e) (eval_call e (_eval_input_fn e) "one_pass") in
  let cont_ev := Evaluate (_estimator e) (eval_call e input_fn name) in
  (0 < d ->
   match sleep_error env (S (length (trace st))) d with
   | None =>
       exists t : Q,
         clock st + d <= t /\
         trace (snd (train env d st)) =
           trace st ++
           [(clock st, LogInfo "Waiting %d secs before starting training." d);
            (clock st, Sleep d); (t, fit_ev)] /\
         trace (snd (evaluate env d st)) =
           trace st ++
           [(clock st, LogInfo "Waiting %d secs before starting eval." d);
            (clock st, Sleep d); (t, eval_ev)] /\
         exists rest : list Stamped,
           trace (snd (_continuous_eval env (S fuel) input_fn name d throttle st)) =
             trace st ++
             [(clock st, LogInfo "Waiting %f secs before starting eval." d);
              (clock st, Sleep d); (t, cont_ev)] ++ rest
   | Some ex =>
       train env d st =
         (Raised ex, logged "Waiting %d secs before starting training." d st) /\
       evaluate env d st =
         (Raised ex, logged "Waiting %d secs before starting eval." d st) /\
       _continuous_eval env (S fuel) input_fn name d throttle st =
         (Raised ex, logged "Waiting %f secs before starting eval." d st)
   end) /\
  (d == 0 ->
   trace (snd (train env d st)) = trace st ++ [(clock st, fit_ev)] /\
   trace (snd (evaluate env d st)) = trace st ++ [(clock st, eval_ev)] /\
   exists rest : list Stamped,
     trace (snd (_continuous_eval env (S fuel) input_fn name d throttle st)) =
       trace st ++ [(clock st, cont_ev)] ++ rest).
Proof.
  intros (_ & _ & Hs) e fit_ev eval_ev cont_ev. split; intros Hd.
  - assert (Hwait : forall fmt,
      initial_delay env fmt d st = logged_sleep env fmt d st).
    { intros fmt. unfold initial_delay.
      assert (H : truthy_Q d = true) by (apply truthy_Q_true; lra).
      now rewrite H. }
    rewrite train_unfold, evaluate_unfold, continuous_eval_unfold, !Hwait.
    unfold logged_sleep.
    destruct (sleep_error env (S (length (trace st))) d) as [ex|].
    + repeat split.
    + exists (clock st + (d + oversleep env (S (length (trace st))))).
      split; [specialize (Hs (S (length (trace st)))); lra|].
      cbn [snd]. split; [|split].
      * cbn. rewrite <- app_assoc. reflexivity.
      * cbn. rewrite <- app_assoc. reflexivity.
      * destruct (while_true_first_call env input_fn name throttle fuel
                    (slept env continuous_delay_fmt d st)) as (rest & Ht).
        exists rest. rewrite Ht. cbn [slept trace clock self].
        rewrite <- app_assoc. reflexivity.
  - rewrite train_unfold, evaluate_unfold, continuous_eval_unfold.
    rewrite !initial_delay_zero by exact Hd. cbn [snd].
    split; [reflexivity|]. split; [reflexivity|].
    destruct (while_true_first_call env input_fn name throttle fuel st)
      as (rest & Ht).
    exists rest. exact Ht.
Qed.

Lemma initial_delay_blocks_witness :
  well_behaved steady_env /\ 0 < 3 /\ 0 < 10000000000 /\ 0 == 0 /\
  (exists t : Q,
     0 + 3 <= t /\
     trace (snd (train steady_env 3 (fresh_state sample_experiment))) =
       [(0, LogInfo "Waiting %d secs before starting training." 3);
        (0, Sleep 3);
        (t, Fit sample_estimator (train_call sample_experiment))]) /\
  train steady_env 10000000000 (fresh_state sample_experiment) =
    (Raised OverflowError,
     logged "Waiting %d secs before starting training." 10000000000
       (fresh_state sample_experiment)) /\
  trace (snd (train steady_env 0 (fresh_state sample_experiment))) =
    [(0, Fit sample_estimator (train_call sample_experiment))].
Proof.
  split; [exact steady_env_well_behaved|].
  split; [reflexivity|]. split; [reflexivity|]. split; [reflexivity|].
  split; [|split].
  - destruct (initial_delay_blocks steady_env 3
                (fresh_state sample_experiment) 1 (InputFnObj 2)
                "continuous" 60 steady_env_well_behaved) as [H _].
    destruct (H eq_refl) as (t & Hle & Htrain & _).
    exists t. split; [exact Hle | exact Htrain].
  - destruct (initial_delay_blocks steady_env 10000000000
                (fresh_state sample_experiment) 1 (InputFnObj 2)
                "continuous" 60 steady_env_well_behaved) as [H _].
    destruct (H eq_refl) as (Htrain & _). exact Htrain.
  - destruct (initial_delay_blocks steady_env 0
                (fresh_state sample_experiment) 1 (InputFnObj 2)
                "continuous" 60 steady_env_well_behaved) as [_ H].
    destruct (H eq_refl) as (Htrain & _). exact Htrain.
Defined.

(** C1: in [_continuous_eval], a turn of the loop that completes and
    whose elapsed time is below [throttle_delay_secs] ends with one
    logged sleep of exactly [throttle_delay_secs - duration], so that
    the next turn begins no earlier than [throttle_delay_secs] after
    this one began; a turn that took at least [throttle_delay_secs]
    adds no sleep and the next turn begins at once.  Hence, in every
    run, consecutive invocations of [Estimator.evaluate] start at least
    [throttle_delay_secs] apart. *)
Theorem continuous_eval_throttle (env : Environment) (input_fn : InputFn)
    (name : string) (throttle : Q) :
  well_behaved env ->
  (forall st : State,
     let c := eval_call (self st) input_fn name in
     let r := evaluate_response env (length (trace st)) (_estimator (self st)) c in
     let now := clock st + took r in
     let duration := now - clock st in
     let turn := eval_iteration env input_fn name throttle st in
     fst turn = Returned tt ->
     exists pre : list Stamped,
       List.filter is_sleep pre = [] /\
       (duration < throttle ->
        trace (snd turn) =
          trace st ++ (clock st, Evaluate (_estimator (self st)) c) :: pre ++
          [(now, LogInfo "Waiting %f secs before starting next eval run."
                   (throttle - duration));
           (now, Sleep (throttle - duration))] /\
        clock st + throttle <= clock (snd turn)) /\
       (throttle <= duration ->
        trace (snd turn) =
          trace st ++ (clock st, Evaluate (_estimator (self st)) c) :: pre /\
        clock (snd turn) = now)) /\
  (forall (fuel : nat) (d : Q) (st : State),
   exists evs : list Stamped,
     trace (snd (_continuous_eval env fuel input_fn name d throttle st)) =
       trace st ++ evs /\
     spaced throttle (evaluate_starts evs)).
Proof.
  intros (_ & _ & Hs). split.
  - intros st c r now duration turn. subst turn.
    rewrite eval_iteration_run. fold c. fold r.
    assert (Hthr : forall s0 : State,
      clock s0 = now ->
      fst (throttle_wait env throttle (clock st) s0) = Returned tt ->
      (duration < throttle ->
       trace (snd (throttle_wait env throttle (clock st) s0)) =
         trace s0 ++ [(now, LogInfo throttle_fmt (throttle - duration));
                      (now, Sleep (throttle - duration))] /\
       clock st + throttle <=
         clock (snd (throttle_wait env throttle (clock st) s0))) /\
      (throttle <= duration ->
       snd (throttle_wait env throttle (clock st) s0) = s0)).
    { intros s0 Hc Hret.
      destruct (throttle_wait_cases env throttle (clock st) s0)
        as [E | (ex & _ & _ & E)]; rewrite E in Hret |- *; [|discriminate].
      cbn [snd]. unfold throttled. rewrite Hc. fold duration. split.
      - intros Hlt. apply Qlt_bool_true in Hlt. rewrite Hlt.
        unfold slept. cbn [trace clock]. rewrite Hc. fold duration.
        split; [reflexivity|].
        specialize (Hs (S (length (trace s0)))). subst duration. lra.
      - intros Hge. apply Qlt_bool_false in Hge. now rewrite Hge. }
    destruct (outcome r) as [ex|v].
    + destruct (is_NotFittedError ex); [|discriminate]. intros Hret.
      exists [(now, LogWarning not_fitted_msg)]. split; [reflexivity|].
      destruct (Hthr (warned (evaluated env c st)) eq_refl Hret)
        as [Hlt Hge].
      split.
      * intros H. destruct (Hlt H) as [Ht Hc]. split; [|exact Hc].
        rewrite Ht. cbn [warned evaluated trace clock].
        rewrite <- !app_assoc. reflexivity.
      * intros H. rewrite (Hge H). cbn [warned evaluated trace clock].
        rewrite <- !app_assoc. split; reflexivity.
    + intros Hret. exists []. split; [reflexivity|].
      destruct (Hthr (evaluated env c st) eq_refl Hret) as [Hlt Hge].
      split.
      * intros H. destruct (Hlt H) as [Ht Hc]. split; [|exact Hc].
        rewrite Ht. cbn [evaluated trace clock].
        rewrite <- !app_assoc. reflexivity.
      * intros H. rewrite (Hge H). cbn [evaluated trace clock].
        split; reflexivity.
  - intros fuel d st. now apply continuous_eval_spaced.
Qed.

Lemma continuous_eval_throttle_witness :
  let st := fresh_state sample_experiment in
  let run := _continuous_eval steady_env 3 (InputFnObj 2) "continuous" 0 60 st in
  let turn := eval_iteration steady_env (InputFnObj 2) "continuous" 60 st in
  let slow := eval_iteration slow_env (InputFnObj 2) "continuous" 60 st in
  well_behaved steady_env /\ well_behaved slow_env /\
  length (evaluate_starts (trace (snd run))) = 3%nat /\
  spaced 60 (evaluate_starts (trace (snd run))) /\
  0 + 60 <= clock (snd turn) /\
  clock (snd slow) = 0 + 70.
Proof.
  intros st run turn slow.
  destruct (continuous_eval_throttle steady_env (InputFnObj 2) "continuous"
              60 steady_env_well_behaved) as [Hturn Hrun].
  destruct (continuous_eval_throttle slow_env (InputFnObj 2) "continuous"
              60 slow_env_well_behaved) as [Hslow _].
  split; [exact steady_env_well_behaved|].
  split; [exact slow_env_well_behaved|].
  split; [vm_compute; reflexivity|]. split; [|split].
  - destruct (Hrun 3%nat 0 st) as (evs & Ht & Hsp).
    subst run. rewrite Ht. exact Hsp.
  - assert (Hret : fst turn = Returned tt) by (vm_compute; reflexivity).
    destruct (Hturn st Hret) as (pre & _ & Hlt & _).
    apply Hlt. vm_compute. reflexivity.
  - assert (Hret : fst slow = Returned tt) by (vm_compute; reflexivity).
    destruct (Hslow st Hret) as (pre & _ & _ & Hge).
    apply Hge. vm_compute. discriminate.
Defined.

(** C10: a turn of the loop of [_continuous_eval] whose call of
    [Estimator.evaluate] raises [NotFittedError] is throttled like any
    other.  After the warning, control reaches the elapsed-time test:
    when the elapsed time is below [throttle_delay_secs] the wait for
    the remaining [throttle_delay_secs - duration] is logged and
    [time.sleep] is called on it.  When [time.sleep] accepts the
    remainder, the turn completes with that sleep and the next attempt
    starts no earlier than [throttle_delay_secs] after the failed one
    started; when it refuses the remainder, the turn ends with its
    exception.  In every case two successive attempts are at least
    [throttle_delay_secs] apart. *)
Theorem not_fitted_turn_is_throttled (env : Environment)
    (input_fn : InputFn) (name : string) (throttle : Q) (st : State) :
  well_behaved env ->
  let est := _estimator (self st) in
  let c := eval_call (self st) input_fn name in
  let r := evaluate_response env (length (trace st)) est c in
  outcome r = inl NotFittedError ->
  let now := clock st + took r in
  let duration := now - clock st in
  let body := eval_iteration env input_fn name throttle in
  let st' := snd (body st) in
  let attempt :=
    [(clock st, Evaluate est c);
     (now, LogWarning
        "Estimator is not fitted yet, skipping evaluation. Increase 'delay_secs' to avoid this warning.")] in
  let wait_logged :=
    (now, LogInfo "Waiting %f secs before starting next eval run."
            (throttle - duration)) in
  (duration < throttle ->
   exists rest : list Stamped,
     trace st' = trace st ++ attempt ++ wait_logged :: rest) /\
  (throttle <= duration ->
   fst (body st) = Returned tt /\ trace st' = trace st ++ attempt) /\
  ((duration < throttle ->
    sleep_error env (S (length (trace st ++ attempt))) (throttle - duration)
      = None) ->
   fst (body st) = Returned tt /\
   (duration < throttle ->
    trace st' =
      trace st ++ attempt ++ [wait_logged; (now, Sleep (throttle - duration))]) /\
   clock st + throttle <= clock st' /\
   forall fuel : nat,
   exists rest : list Stamped,
     trace (snd (while_true (S (S fuel)) body st)) =
       trace st' ++ (clock st', Evaluate est c) :: rest) /\
  (forall ex : Exn,
     duration < throttle ->
     sleep_error env (S (length (trace st ++ attempt))) (throttle - duration)
       = Some ex ->
     fst (body st) = Raised ex /\
     trace st' = trace st ++ attempt ++ [wait_logged]) /\
  (forall fuel : nat,
   exists evs : list Stamped,
     trace (snd (while_true fuel body st)) = trace st ++ evs /\
     spaced throttle (evaluate_starts evs)).
Proof.
  intros (_ & Htook & Hs) est c r Hr now duration body st' attempt wait_logged.
  set (sw := warned (evaluated env c st)).
  assert (Hrun : body st = throttle_wait env throttle (clock st) sw).
  { subst body. cbv beta. rewrite eval_iteration_run.
    fold c. fold est. fold r. rewrite Hr. reflexivity. }
  assert (Htr : trace sw = trace st ++ attempt).
  { subst sw attempt. cbn [warned evaluated trace clock].
    rewrite <- app_assoc. reflexivity. }
  assert (Hd : clock sw - clock st = duration) by reflexivity.
  subst st'. rewrite Hrun.
  split; [|split; [|split; [|split]]].
  - intros Hlt. unfold throttle_wait, logged_sleep. rewrite Hd.
    apply Qlt_bool_true in Hlt. rewrite Hlt.
    destruct (sleep_error env _ _); cbn [snd logged slept trace];
      rewrite Htr; eexists; rewrite <- app_assoc; reflexivity.
  - intros Hge. unfold throttle_wait. rewrite Hd.
    apply Qlt_bool_false in Hge. rewrite Hge.
    split; [reflexivity | exact Htr].
  - intros Hacc.
    assert (Hok : throttle_wait env throttle (clock st) sw =
                  (Returned tt, throttled env throttle (clock st) sw)).
    { unfold throttle_wait, throttled, logged_sleep. rewrite Hd.
      destruct (Qlt_bool duration throttle) eqn:E; [|reflexivity].
      apply Qlt_bool_true in E. rewrite Htr, (Hacc E). reflexivity. }
    rewrite Hok. cbn [fst snd].
    split; [reflexivity|]. split; [|split].
    + intros Hlt. unfold throttled. rewrite Hd.
      apply Qlt_bool_true in Hlt. rewrite Hlt.
      cbn [slept trace]. rewrite Htr, <- app_assoc. reflexivity.
    + now apply throttled_clock.
    + intros fuel. rewrite while_true_turn, Hrun, Hok.
      set (st1 := throttled env throttle (clock st) sw).
      destruct (while_true_first_call env input_fn name throttle fuel st1)
        as (rest & Ht).
      exists rest. fold body in Ht. rewrite Ht.
      assert (Hself : self st1 = self st)
        by (subst st1; rewrite throttled_self; reflexivity).
      subst c est. rewrite Hself. reflexivity.
  - intros ex Hlt He. unfold throttle_wait, logged_sleep. rewrite Hd.
    apply Qlt_bool_true in Hlt. rewrite Hlt.
    rewrite Htr, He. cbn [fst snd logged trace].
    rewrite Htr, <- app_assoc. split; reflexivity.
  - intros fuel.
    destruct (while_true_paced env input_fn name throttle Hs fuel st)
      as (evs & Ht & Hp).
    exists evs. split; [exact Ht | exact (paced_spaced _ _ _ Hp)].
Qed.

Lemma not_fitted_turn_is_throttled_witness :
  let body := eval_iteration unfitted_env (InputFnObj 2) "continuous" 60 in
  let hasty := eval_iteration unfitted_env (InputFnObj 2) "continuous" 0 in
  let stuck :=
    eval_iteration unfitted_env (InputFnObj 2) "continuous" 10000000000 in
  let st := fresh_state sample_experiment in
  let c := eval_call sample_experiment (InputFnObj 2) "continuous" in
  well_behaved unfitted_env /\
  fst (body st) = Returned tt /\
  trace (snd (body st)) =
    [(0, Evaluate sample_estimator c);
     (0 + 1, LogWarning not_fitted_msg);
     (0 + 1, LogInfo throttle_fmt (60 - (0 + 1 - 0)));
     (0 + 1, Sleep (60 - (0 + 1 - 0)))] /\
  trace (snd (hasty st)) =
    [(0, Evaluate sample_estimator c); (0 + 1, LogWarning not_fitted_msg)] /\
  fst (stuck st) = Raised OverflowError /\
  0 + 60 <= clock (snd (body st)) /\
  exists rest : list Stamped,
    trace (snd (while_true 2 body st)) =
      trace (snd (body st)) ++
      (clock (snd (body st)), Evaluate sample_estimator c) :: rest.
Proof.
  intros body hasty stuck st c.
  destruct (not_fitted_turn_is_throttled unfitted_env (InputFnObj 2)
              "continuous" 60 st unfitted_env_well_behaved eq_refl)
    as (_ & _ & Hok & _).
  destruct (Hok (fun _ => eq_refl)) as (Hret & Hlt & Hclock & Hnext).
  destruct (not_fitted_turn_is_throttled unfitted_env (InputFnObj 2)
              "continuous" 0 st unfitted_env_well_behaved eq_refl)
    as (_ & Hge & _).
  destruct (not_fitted_turn_is_throttled unfitted_env (InputFnObj 2)
              "continuous" 10000000000 st unfitted_env_well_behaved eq_refl)
    as (_ & _ & _ & Hrefused & _).
  split; [exact unfitted_env_well_behaved|].
  split; [exact Hret|].
  split; [apply Hlt; vm_compute; reflexivity|].
  split; [apply Hge; vm_compute; discriminate|].
  split; [apply (Hrefused OverflowError); vm_compute; reflexivity|].
  split; [exact Hclock|].
  exact (Hnext 0%nat).
Defined.
(** C5: when [local_eval_frequency] is set, to a positive step
    interval or to any other non-zero integer [n], [local_run] appends
    exactly one [ValidationMonitor], built from the stored
    [eval_input_fn], [eval_steps] and [eval_metrics] with
    [every_n_steps = n], to the monitor list; it then runs [train()]
    and [evaluate()] on that state.  [fit] is invoked at once, with the
    extended list as [monitors]; when it returns, whatever it returns,
    [evaluate] is invoked the moment it ends, and its outcome is the
    outcome of [local_run].  No log line and no sleep occur. *)
Theorem local_run_appends_periodic_monitor (env : Environment) (st : State)
    (n : Z) :
  _local_eval_frequency (self st) = Some n -> n <> 0%Z ->
  let e := self st in
  let est := _estimator e in
  let m := ValidationMonitor (_eval_input_fn e) (_eval_steps e)
             (_eval_metrics e) n in
  let st' := snd (local_run env st) in
  let fit_c := {| fit_input_fn := _train_input_fn e;
                  fit_max_steps := _train_steps e;
                  fit_monitors := _train_monitors (self st') |} in
  let eval_c := {| evaluate_input_fn := _eval_input_fn e;
                   evaluate_steps := _eval_steps e;
                   evaluate_metrics := _eval_metrics e;
                   evaluate_name := "one_pass" |} in
  let rf := fit_response env (length (trace st)) est fit_c in
  let re := evaluate_response env (S (length (trace st))) est eval_c in
  monitors_of st' = monitors_of st ++ [m] /\
  (exists st1 : State,
     monitors_of st1 = monitors_of st ++ [m] /\
     clock st1 = clock st /\ trace st1 = trace st /\
     local_run env st = (train env 0 ;; evaluate env 0) st1) /\
  match outcome rf with
  | inr _ =>
      trace st' = trace st ++ [(clock st, Fit est fit_c);
                               (clock st + took rf, Evaluate est eval_c)] /\
      fst (local_run env st) = outcome_of re
  | inl ex =>
      trace st' = trace st ++ [(clock st, Fit est fit_c)] /\
      fst (local_run env st) = Raised ex
  end.
Proof.
  intros Hf Hn e est m st' fit_c eval_c rf re.
  assert (Hm : periodic_monitors (self st) = [m])
    by exact (periodic_monitors_set _ _ Hf Hn).
  split; [|split].
  - subst st'. rewrite local_run_monitors, Hm. reflexivity.
  - exists (prepared st). rewrite prepared_monitors, Hm.
    repeat split. apply local_run_prepared.
  - assert (Hc : fit_c = train_call (self (prepared st))).
    { subst fit_c st'. rewrite local_run_self. reflexivity. }
    subst rf re st'. rewrite Hc. clear Hc fit_c.
    rewrite local_run_run. cbv zeta. fold e est.
    destruct (outcome _) as [ex|v]; cbn [fst snd].
    + split; reflexivity.
    + split.
      * cbn [evaluated fitted trace clock self prepared].
        rewrite <- app_assoc. reflexivity.
      * cbn [fitted trace]. rewrite length_app, Nat.add_1_r. reflexivity.
Qed.

Lemma local_run_appends_periodic_monitor_witness :
  let st' := snd (local_run steady_env monitored_state) in
  monitors_of st' =
    [UserMonitor 1; ValidationMonitor (InputFnObj 2) (Some 100%Z) None 5] /\
  fst (local_run steady_env monitored_state) =
    Returned (VResults [("loss", 1 # 2)]).
Proof.
  assert (Hn : 5%Z <> 0%Z) by discriminate.
  destruct (local_run_appends_periodic_monitor steady_env monitored_state 5
              eq_refl Hn) as (Hm & _ & Ht & Ho).
  split; [exact Hm | exact Ho].
Defined.

(** The integer [0] is no step interval: the test
    [if self._local_eval_frequency:] is false for it and no monitor is
    appended. *)
Example local_run_zero_frequency_appends_nothing :
  let st := fresh_state zero_frequency_experiment in
  let st' := snd (local_run steady_env st) in
  _local_eval_frequency (self st) = Some 0%Z /\
  monitors_of st' = [] /\
  monitors_of st' <>
    monitors_of st ++
    [ValidationMonitor (_eval_input_fn (self st)) (_eval_steps (self st))
       (_eval_metrics (self st)) 0].
Proof.
  split; [reflexivity|]. split; [reflexivity|]. discriminate.
Qed.

(** C7: when [local_eval_frequency] is [None], [local_run] appends no
    monitor.  The monitor list reads as before; every list object that
    existed keeps its contents; the field ends up referring to a list
    with the old contents, which is a new empty list when the field was
    [None], and the stored list itself when that list was not empty. *)
Theorem local_run_without_frequency_keeps_monitors (env : Environment)
    (st : State) :
  _local_eval_frequency (self st) = None ->
  let st' := snd (local_run env st) in
  monitors_of st' = monitors_of st /\
  (forall l : loc, (l < length (heap st))%nat -> heap st' !! l = heap st !! l) /\
  (exists l : loc,
     _train_monitors (self st') = Some l /\
     heap st' !! l = Some (monitors_of st)) /\
  (_train_monitors (self st) = None ->
   _train_monitors (self st') = Some (length (heap st)) /\
   heap st' = heap st ++ [[]]) /\
  (monitors_of st <> [] ->
   _train_monitors (self st') = _train_monitors (self st) /\
   heap st' = heap st).
Proof.
  intros Hf st'.
  assert (Hp : periodic_monitors (self st) = [])
    by (unfold periodic_monitors; now rewrite Hf).
  assert (Hh : heap st' = defaulted_heap st).
  { subst st'. rewrite local_run_heap. unfold prepared. cbn [heap].
    now rewrite Hf. }
  assert (Hs : _train_monitors (self st') = Some (monitors_ref st))
    by (subst st'; now rewrite local_run_self).
  split; [|split; [|split; [|split]]].
  - subst st'. rewrite local_run_monitors, Hp. apply app_nil_r.
  - intros l Hl. rewrite Hh. unfold defaulted_heap.
    destruct (truthy_list _ _); [reflexivity|]. now apply lookup_app_l.
  - exists (monitors_ref st). split; [exact Hs|].
    subst st'. rewrite local_run_heap, prepared_lookup, Hp.
    now rewrite app_nil_r.
  - intros Hnone. rewrite Hs, Hh. unfold monitors_ref, defaulted_heap.
    rewrite Hnone. split; reflexivity.
  - intros Hne. rewrite Hs, Hh. unfold monitors_ref, defaulted_heap.
    unfold monitors_of in Hne.
    destruct (_train_monitors (self st)) as [l|]; [|contradiction].
    cbn [truthy_list].
    destruct (heap st !! l) as [[|x xs]|]; cbn in Hne;
      try contradiction. split; reflexivity.
Qed.

Lemma local_run_without_frequency_keeps_monitors_witness :
  let st' := snd (local_run steady_env unscheduled_state) in
  let st'' := snd (local_run steady_env (fresh_state bare_experiment)) in
  monitors_of st' = [UserMonitor 1] /\
  heap st' = [[UserMonitor 1]] /\
  _train_monitors (self st'') = Some 0%nat /\
  heap st'' = [[]].
Proof.
  split; [|split].
  - destruct (local_run_without_frequency_keeps_monitors steady_env
                unscheduled_state eq_refl) as (Hm & _). exact Hm.
  - destruct (local_run_without_frequency_keeps_monitors steady_env
                unscheduled_state eq_refl) as (_ & _ & _ & _ & Hkeep).
    apply Hkeep. discriminate.
  - destruct (local_run_without_frequency_keeps_monitors steady_env
                (fresh_state bare_experiment) eq_refl)
      as (_ & _ & _ & Hnone & _).
    exact (Hnone eq_refl).
Defined.

(** C9: when [local_eval_frequency] is set, to a positive step
    interval or to any other non-zero integer, each call of
    [local_run] appends the periodic monitor again, so after two calls
    the list holds it twice.  The second
    append lands in the list object the first call left in the field
    (and the first in the stored list itself, when that list was not
    empty): the list is extended in place. *)
Theorem local_run_twice_appends_twice (env : Environment) (st : State)
    (n : Z) :
  _local_eval_frequency (self st) = Some n -> n <> 0%Z ->
  let e := self st in
  let m := ValidationMonitor (_eval_input_fn e) (_eval_steps e)
             (_eval_metrics e) n in
  let st1 := snd (local_run env st) in
  let st2 := snd (local_run env st1) in
  monitors_of st1 = monitors_of st ++ [m] /\
  monitors_of st2 = monitors_of st ++ [m; m] /\
  (exists l : loc,
     _train_monitors (self st1) = Some l /\
     _train_monitors (self st2) = Some l /\
     heap st1 !! l = Some (monitors_of st ++ [m]) /\
     heap st2 !! l = Some (monitors_of st ++ [m; m])) /\
  (monitors_of st <> [] ->
   _train_monitors (self st1) = _train_monitors (self st)).
Proof.
  intros Hf Hn e m st1 st2.
  assert (Hm : periodic_monitors (self st) = [m])
    by exact (periodic_monitors_set _ _ Hf Hn).
  assert (Hs1 : self st1 = with_train_monitors (self st) (Some (monitors_ref st)))
    by apply local_run_self.
  assert (Hh1 : heap st1 !! monitors_ref st = Some (monitors_of st ++ [m])).
  { subst st1. rewrite local_run_heap, prepared_lookup, Hm. reflexivity. }
  assert (Hm1 : periodic_monitors (self st1) = [m]).
  { rewrite Hs1. exact Hm. }
  assert (Hr1 : monitors_ref st1 = monitors_ref st).
  { unfold monitors_ref at 1. rewrite Hs1.
    cbn [with_train_monitors _train_monitors truthy_list]. rewrite Hh1.
    destruct (monitors_of st); reflexivity. }
  assert (Hmon1 : monitors_of st1 = monitors_of st ++ [m]).
  { subst st1. rewrite local_run_monitors, Hm. reflexivity. }
  assert (Hmon2 : monitors_of st2 = monitors_of st ++ [m; m]).
  { subst st2. rewrite local_run_monitors, Hm1, Hmon1, <- app_assoc.
    reflexivity. }
  split; [exact Hmon1|]. split; [exact Hmon2|]. split.
  - exists (monitors_ref st). split; [now rewrite Hs1|].
    split; [subst st2; now rewrite local_run_self, Hr1|].
    split; [exact Hh1|].
    subst st2. rewrite local_run_heap, <- Hr1, prepared_lookup, Hm1, Hmon1.
    now rewrite <- app_assoc.
  - intros Hne. rewrite Hs1. cbn [with_train_monitors _train_monitors].
    unfold monitors_ref. unfold monitors_of in Hne.
    destruct (_train_monitors (self st)) as [l|]; [|contradiction].
    cbn [truthy_list].
    destruct (heap st !! l) as [[|x xs]|]; cbn in Hne;
      try contradiction. reflexivity.
Qed.

Lemma local_run_twice_appends_twice_witness :
  let st1 := snd (local_run steady_env monitored_state) in
  let st2 := snd (local_run steady_env st1) in
  monitors_of st2 =
    [UserMonitor 1;
     ValidationMonitor (InputFnObj 2) (Some 100%Z) None 5;
     ValidationMonitor (InputFnObj 2) (Some 100%Z) None 5] /\
  _train_monitors (self st1) = Some 0%nat.
Proof.
  assert (Hn : 5%Z <> 0%Z) by discriminate.
  destruct (local_run_twice_appends_twice steady_env monitored_state 5
              eq_refl Hn) as (_ & Hm2 & _ & Hsame).
  split; [exact Hm2|]. apply Hsame. discriminate.
Defined.

(** With the integer [0] two calls of [local_run] append nothing. *)
Example local_run_twice_zero_frequency_appends_nothing :
  let st := fresh_state zero_frequency_experiment in
  let st2 := snd (local_run steady_env (snd (local_run steady_env st))) in
  let m := ValidationMonitor (_eval_input_fn (self st)) (_eval_steps (self st))
             (_eval_metrics (self st)) 0 in
  _local_eval_frequency (self st) = Some 0%Z /\
  monitors_of st2 = [] /\
  monitors_of st2 <> monitors_of st ++ [m; m].
Proof.
  split; [reflexivity|]. split; [reflexivity|]. discriminate.
Qed.



(** C6: [continuous_eval] is [_continuous_eval] on the stored
    [eval_input_fn] with the name ["continuous"], and
    [continuous_eval_on_train_data] is [_continuous_eval] on the stored
    [train_input_fn] with the name ["continuous_on_train_data"]; both
    hand on [delay_secs] and [throttle_delay_secs].  Every call of
    [Estimator.evaluate] in a run of either carries that input function
    and that name, with the stored [eval_steps] and [eval_metrics].
    Apart from these two arguments the runs are the same: against an
    Estimator that answers both alike they end alike, at the same
    instant, after the same events at the same instants. *)
Theorem continuous_eval_variants (env : Environment) (fuel : nat)
    (d throttle : Q) (st : State) :
  let e := self st in
  let on_eval := continuous_eval env fuel d throttle st in
  let on_train := continuous_eval_on_train_data env fuel d throttle st in
  on_eval =
    _continuous_eval env fuel (_eval_input_fn e) "continuous" d throttle st /\
  on_train =
    _continuous_eval env fuel (_train_input_fn e) "continuous_on_train_data"
      d throttle st /\
  (exists evs : list Stamped,
     trace (snd on_eval) = trace st ++ evs /\
     Forall (fun c => c = {| evaluate_input_fn := _eval_input_fn e;
                             evaluate_steps := _eval_steps e;
                             evaluate_metrics := _eval_metrics e;
                             evaluate_name := "continuous" |})
       (evaluate_calls evs)) /\
  (exists evs : list Stamped,
     trace (snd on_train) = trace st ++ evs /\
     Forall (fun c => c = {| evaluate_input_fn := _train_input_fn e;
                             evaluate_steps := _eval_steps e;
                             evaluate_metrics := _eval_metrics e;
                             evaluate_name := "continuous_on_train_data" |})
       (evaluate_calls evs)) /\
  (tag_blind env ->
   fst on_eval = fst on_train /\
   clock (snd on_eval) = clock (snd on_train) /\
   exists evs : list Stamped,
     trace (snd on_eval) = trace st ++ evs /\
     trace (snd on_train) =
       trace st ++
       map (retag (_train_input_fn e) "continuous_on_train_data") evs).
Proof.
  intros e on_eval on_train.
  assert (Ha : on_eval =
    _continuous_eval env fuel (_eval_input_fn e) "continuous" d throttle st)
    by reflexivity.
  assert (Hb : on_train =
    _continuous_eval env fuel (_train_input_fn e) "continuous_on_train_data"
      d throttle st) by reflexivity.
  split; [exact Ha|]. split; [exact Hb|]. split; [|split].
  - rewrite Ha. apply continuous_eval_calls.
  - rewrite Hb. apply continuous_eval_calls.
  - intros Hblind. rewrite Ha, Hb.
    rewrite !continuous_eval_unfold.
    destruct (initial_delay_cases env continuous_delay_fmt d st)
      as [-> | (ex & _ & _ & ->)].
    2: { cbn [fst snd logged clock trace].
         split; [reflexivity|]. split; [reflexivity|].
         exists [(clock st, LogInfo continuous_delay_fmt d)].
         split; reflexivity. }
    + set (s0 := delayed env continuous_delay_fmt d st).
      destruct (while_true_alike env (_train_input_fn e) (_eval_input_fn e)
                  "continuous_on_train_data" "continuous" (trace s0)
                  throttle Hblind fuel s0 s0 (alike_refl _ _ s0))
        as (Hfst & _ & _ & Hclock & evs & Hta & Htb).
      split; [exact Hfst|]. split; [exact Hclock|].
      destruct (delayed_trace env continuous_delay_fmt d st)
        as (pre & Hpre & _).
      fold s0 in Hpre.
      assert (Hmap : map (retag (_train_input_fn e) "continuous_on_train_data")
                       pre = pre).
      { subst s0. unfold delayed in Hpre. destruct (truthy_Q d).
        - cbn [slept trace] in Hpre. apply app_inv_head in Hpre.
          subst pre. reflexivity.
        - rewrite <- (app_nil_r (trace st)) in Hpre at 1.
          apply app_inv_head in Hpre. subst pre. reflexivity. }
      exists (pre ++ evs). rewrite Hta, Htb, Hpre, map_app, Hmap.
      rewrite <- !app_assoc. split; reflexivity.
Qed.

Lemma continuous_eval_variants_witness :
  let st := fresh_state sample_experiment in
  let on_eval := continuous_eval steady_env 3 2 60 st in
  let on_train := continuous_eval_on_train_data steady_env 3 2 60 st in
  tag_blind steady_env /\
  fst on_eval = fst on_train /\
  clock (snd on_eval) = clock (snd on_train) /\
  length (evaluate_calls (trace (snd on_eval))) = 3%nat /\
  Forall (fun c => c = eval_call sample_experiment (InputFnObj 2) "continuous")
    (evaluate_calls (trace (snd on_eval))).
Proof.
  intros st on_eval on_train.
  destruct (continuous_eval_variants steady_env 3 2 60 st)
    as (_ & _ & (evs & Ht & Hall) & _ & Hsame).
  destruct (Hsame steady_env_tag_blind) as (Hfst & Hclock & _).
  split; [exact steady_env_tag_blind|].
  split; [exact Hfst|]. split; [exact Hclock|].
  split; [vm_compute; reflexivity|].
  subst on_eval. rewrite Ht. exact Hall.
Defined.

(** ** Further properties of the methods *)

(** What holds of the events of every turn, and of lists put end to
    end, holds of the events of the loop. *)
Lemma while_true_events (env : Environment) (input_fn : InputFn)
    (name : string) (throttle : Q) (P : list Stamped -> Prop) :
  P [] ->
  (forall xs ys, P xs -> P ys -> P (xs ++ ys)) ->
  (forall st : State,
   exists evs,
     trace (snd (eval_iteration env input_fn name throttle st)) =
       trace st ++ evs /\ P evs) ->
  forall (fuel : nat) (st : State),
  exists evs,
    trace (snd (while_true fuel (eval_iteration env input_fn name throttle) st))
      = trace st ++ evs /\ P evs.
Proof.
  intros Hnil Happ Hturn. induction fuel as [|fuel IH]; intros st.
  - exists []. cbn. rewrite app_nil_r. split; [reflexivity | exact Hnil].
  - rewrite while_true_turn. destruct (Hturn st) as (evs & Ht & HP).
    destruct (eval_iteration env input_fn name throttle st) as [[[]|ex|] st1];
      cbn [snd] in Ht |- *.
    + destruct (IH st1) as (evs1 & Ht1 & HP1).
      exists (evs ++ evs1). split; [|now apply Happ].
      rewrite Ht1, Ht, <- app_assoc. reflexivity.
    + exists evs. split; [exact Ht | exact HP].
    + exists evs. split; [exact Ht | exact HP].
Qed.

(** The same for [_continuous_eval], whose initial wait only logs and
    sleeps. *)
Lemma continuous_eval_events (env : Environment) (input_fn : InputFn)
    (name : string) (throttle : Q) (P : list Stamped -> Prop) :
  P [] ->
  (forall xs ys, P xs -> P ys -> P (xs ++ ys)) ->
  (forall t fmt a, P [(t, LogInfo fmt a)]) ->
  (forall t s, P [(t, Sleep s)]) ->
  (forall st : State,
   exists evs,
     trace (snd (eval_iteration env input_fn name throttle st)) =
       trace st ++ evs /\ P evs) ->
  forall (fuel : nat) (d : Q) (st : State),
  exists evs,
    trace (snd (_continuous_eval env fuel input_fn name d throttle st))
      = trace st ++ evs /\ P evs.
Proof.
  intros Hnil Happ Hlog Hsleep Hturn fuel d st.
  destruct (continuous_eval_cases env fuel input_fn name d throttle st)
    as [-> | (ex & ->)].
  - destruct (while_true_events env input_fn name throttle P Hnil Happ Hturn
                fuel (delayed env continuous_delay_fmt d st))
      as (evs & Ht & HP).
    unfold delayed in Ht |- *. destruct (truthy_Q d).
    + cbn [slept trace] in Ht.
      exists (([(clock st, LogInfo continuous_delay_fmt d)] ++
               [(clock st, Sleep d)]) ++ evs).
      split; [rewrite Ht, <- !app_assoc; reflexivity|].
      apply Happ; [apply Happ; [apply Hlog | apply Hsleep] | exact HP].
    + exists evs. split; [exact Ht | exact HP].
  - cbn [snd logged trace]. eexists. split; [reflexivity | apply Hlog].
Qed.

Lemma continuous_eval_frame_run (env : Environment) (input_fn : InputFn)
    (name : string) (d throttle : Q) (fuel : nat) (st : State) :
  let res := _continuous_eval env fuel input_fn name d throttle st in
  self (snd res) = self st /\ heap (snd res) = heap st.
Proof.
  intros res. subst res.
  destruct (continuous_eval_cases env fuel input_fn name d throttle st)
    as [-> | (ex & ->)].
  - destruct (while_true_frame env input_fn name throttle fuel
                (delayed env continuous_delay_fmt d st)) as (Hs & Hh).
    rewrite Hs, Hh, delayed_self, delayed_heap. split; reflexivity.
  - split; reflexivity.
Qed.

Lemma filter_nil_app (f : Stamped -> bool) (xs ys : list Stamped) :
  List.filter f xs = [] -> List.filter f ys = [] ->
  List.filter f (xs ++ ys) = [].
Proof. intros Hx Hy. rewrite List.filter_app, Hx, Hy. reflexivity. Qed.

(** X1: a delay that [time.sleep] refuses never reaches the Estimator.
    When [delay_secs] is not zero and [time.sleep] refuses it, as it
    does for every negative length, [train], [evaluate] and
    [_continuous_eval] log the wait and end with the exception of
    [time.sleep]: the log line is the only event, the clock has not
    moved and the Estimator is not invoked. *)
Theorem refused_delay_never_reaches_estimator (env : Environment) (d : Q)
    (st : State) (fuel : nat) (input_fn : InputFn) (name : string)
    (throttle : Q) :
  let refused (ex : Exn) :=
    train env d st =
      (Raised ex, logged "Waiting %d secs before starting training." d st) /\
    evaluate env d st =
      (Raised ex, logged "Waiting %d secs before starting eval." d st) /\
    _continuous_eval env fuel input_fn name d throttle st =
      (Raised ex, logged "Waiting %f secs before starting eval." d st) in
  (forall ex : Exn,
     ~ d == 0 ->
     sleep_error env (S (length (trace st))) d = Some ex ->
     refused ex) /\
  (refuses_negative env -> d < 0 -> exists ex : Exn, refused ex).
Proof.
  intros refused.
  assert (H : forall ex : Exn,
    ~ d == 0 -> sleep_error env (S (length (trace st))) d = Some ex ->
    refused ex).
  { intros ex Hd He. subst refused. cbv beta.
    rewrite train_unfold, evaluate_unfold, continuous_eval_unfold.
    rewrite !(initial_delay_refused env _ d st ex Hd He).
    repeat split. }
  split; [exact H|].
  intros Hneg Hd.
  assert (He : exists ex, sleep_error env (S (length (trace st))) d = Some ex).
  { specialize (Hneg (S (length (trace st))) d Hd).
    destruct (sleep_error env (S (length (trace st))) d) as [ex|];
      [exists ex; reflexivity | contradiction]. }
  destruct He as (ex & He). exists ex. apply H; [lra | exact He].
Qed.

Lemma refused_delay_never_reaches_estimator_witness :
  let st := fresh_state sample_experiment in
  refuses_negative steady_env /\
  train steady_env (-3) st =
    (Raised ValueError,
     logged "Waiting %d secs before starting training." (-3) st) /\
  train steady_env (-10000000000) st =
    (Raised OverflowError,
     logged "Waiting %d secs before starting training." (-10000000000) st) /\
  _continuous_eval steady_env 5 (InputFnObj 2) "continuous" 10000000000 60 st =
    (Raised OverflowError,
     logged "Waiting %f secs before starting eval." 10000000000 st) /\
  exists ex : Exn, fst (evaluate steady_env (-1 # 2) st) = Raised ex.
Proof.
  intros st.
  assert (Hneg : refuses_negative steady_env)
    by (apply cpython_refuses_negative; reflexivity).
  split; [exact Hneg|].
  split; [|split; [|split]].
  - destruct (refused_delay_never_reaches_estimator steady_env (-3) st 5
                (InputFnObj 2) "continuous" 60) as (H & _).
    apply (H ValueError); [discriminate | reflexivity].
  - destruct (refused_delay_never_reaches_estimator steady_env
                (-10000000000) st 5 (InputFnObj 2) "continuous" 60)
      as (H & _).
    apply (H OverflowError); [discriminate | reflexivity].
  - destruct (refused_delay_never_reaches_estimator steady_env
                10000000000 st 5 (InputFnObj 2) "continuous" 60) as (H & _).
    apply (H OverflowError); [discriminate | reflexivity].
  - destruct (refused_delay_never_reaches_estimator steady_env (-1 # 2) st 5
                (InputFnObj 2) "continuous" 60) as (_ & H).
    assert (Hd : -1 # 2 < 0) by reflexivity.
    destruct (H Hneg Hd) as (ex & _ & Heval & _).
    exists ex. now rewrite Heval.
Defined.

(** X2: [_continuous_eval] does not end by itself.  When [time.sleep]
    accepts the initial delay, if there is one, and every length up to
    the throttle, and as long as [Estimator.evaluate] answers with a
    value or with [NotFittedError], the loop is still running after any
    number of turns, and it has invoked [Estimator.evaluate] once per
    turn. *)
Theorem continuous_eval_keeps_going (env : Environment) (input_fn : InputFn)
    (name : string) (d throttle : Q) (st : State) (fuel : nat) :
  well_behaved env ->
  (~ d == 0 -> sleep_error env (S (length (trace st))) d = None) ->
  sleeps_up_to env throttle ->
  (forall n est c, recoverable (outcome (evaluate_response env n est c)) = true) ->
  fst (_continuous_eval env fuel input_fn name d throttle st) = Running /\
  exists evs : list Stamped,
    trace (snd (_continuous_eval env fuel input_fn name d throttle st)) =
      trace st ++ evs /\
    length (evaluate_calls evs) = fuel.
Proof.
  intros (_ & Htook & _) Hacc Hst Hrec.
  rewrite continuous_eval_accepted by exact Hacc.
  destruct (delayed_trace env continuous_delay_fmt d st)
    as (pre & Hpre & _ & _ & Hc).
  destruct (while_true_keeps_going env input_fn name throttle Htook Hst Hrec
              fuel (delayed env continuous_delay_fmt d st))
    as (Hr & evs & Ht & Hlen).
  split; [exact Hr|]. exists (pre ++ evs). split.
  - rewrite Ht, Hpre, <- app_assoc. reflexivity.
  - rewrite evaluate_calls_app, Hc. exact Hlen.
Qed.

Lemma continuous_eval_keeps_going_witness :
  well_behaved steady_env /\
  sleep_error steady_env 1 2 = None /\ sleeps_up_to steady_env 60 /\
  fst (_continuous_eval steady_env 4 (InputFnObj 2) "continuous" 2 60
         (fresh_state sample_experiment)) = Running /\
  length (evaluate_calls
            (trace (snd (_continuous_eval steady_env 4 (InputFnObj 2)
                           "continuous" 2 60 (fresh_state sample_experiment)))))
  = 4%nat.
Proof.
  assert (Hacc : sleep_error steady_env 1 2 = None) by reflexivity.
  assert (Hst : sleeps_up_to steady_env 60).
  { apply cpython_sleeps_up_to; [reflexivity | discriminate]. }
  destruct (continuous_eval_keeps_going steady_env (InputFnObj 2) "continuous"
              2 60 (fresh_state sample_experiment) 4
              steady_env_well_behaved (fun _ => Hacc) Hst
              (fun _ _ _ => eq_refl)) as (Hr & evs & Ht & Hlen).
  split; [exact steady_env_well_behaved|].
  split; [exact Hacc|]. split; [exact Hst|].
  split; [exact Hr|]. rewrite Ht. exact Hlen.
Defined.

(** How one turn of the loop can raise. *)
Lemma eval_iteration_raised (env : Environment) (input_fn : InputFn)
    (name : string) (throttle : Q) (st : State) (ex : Exn) :
  let res := eval_iteration env input_fn name throttle st in
  (forall n est c, 0 <= took (evaluate_response env n est c)) ->
  fst res = Raised ex ->
  ended_by_call env input_fn name ex st (snd res) \/
  ended_by_sleep env throttle ex st (snd res).
Proof.
  intros res Htook. subst res.
  rewrite eval_iteration_run.
  set (est := _estimator (self st)).
  set (c := eval_call (self st) input_fn name).
  pose proof (Htook (length (trace st)) est c) as Hr.
  assert (Hwait : forall s w,
    trace s = trace st ++ (clock st, Evaluate est c) :: w ->
    clock st <= clock s ->
    fst (throttle_wait env throttle (clock st) s) = Raised ex ->
    ended_by_sleep env throttle ex st
      (snd (throttle_wait env throttle (clock st) s))).
  { intros s w Hs Hc.
    destruct (throttle_wait_cases env throttle (clock st) s)
      as [-> | (ex' & Hlt & He & ->)]; [discriminate|].
    cbn [fst snd]. intros [= ->].
    exists ((clock st, Evaluate est c) :: w), (clock s),
      (throttle - (clock s - clock st)).
    split; [lra|]. split; [lra|]. split.
    - cbn [logged trace]. rewrite Hs, <- app_assoc. reflexivity.
    - rewrite <- Hs. exact He. }
  destruct (outcome (evaluate_response env (length (trace st)) est c))
    as [ex'|v] eqn:Ho.
  - destruct (is_NotFittedError ex') eqn:Hnf.
    + intros H. right.
      apply (Hwait _ [(clock st + took (evaluate_response env
                         (length (trace st)) est c),
                       LogWarning not_fitted_msg)]); [| |exact H].
      * cbn [warned evaluated trace clock]. rewrite <- app_assoc. reflexivity.
      * cbn [warned evaluated clock]. fold est. lra.
    + cbn [fst snd]. intros [= ->]. left. split; [exact Hnf|].
      exists [], (clock st). rewrite app_nil_r. split; [reflexivity|].
      exact Ho.
  - intros H. right. apply (Hwait _ []); [| |exact H].
    + reflexivity.
    + cbn [evaluated clock]. fold est. lra.
Qed.

(** How the loop can raise. *)
Lemma while_true_raised (env : Environment) (input_fn : InputFn)
    (name : string) (throttle : Q) (ex : Exn) :
  (forall n est c, 0 <= took (evaluate_response env n est c)) ->
  forall (fuel : nat) (st : State),
  let res := while_true fuel (eval_iteration env input_fn name throttle) st in
  fst res = Raised ex ->
  ended_by_call env input_fn name ex st (snd res) \/
  ended_by_sleep env throttle ex st (snd res).
Proof.
  intros Htook.
  induction fuel as [|fuel IH]; intros st res; subst res.
  - discriminate.
  - rewrite while_true_turn.
    destruct (eval_iteration_trace env input_fn name throttle st)
      as (Hself & evs & Ht & _).
    pose proof (eval_iteration_raised env input_fn name throttle st ex Htook)
      as Hturn.
    cbv zeta in Hself, Ht, Hturn.
    remember (eval_iteration env input_fn name throttle st) as turn eqn:Eturn.
    clear Eturn.
    destruct turn as [o s1]. cbn [fst snd] in Hself, Ht, Hturn.
    destruct o as [[]|ex'|].
    + intros Hraised.
      specialize (IH s1 Hraised). cbv zeta in IH.
      remember (while_true fuel (eval_iteration env input_fn name throttle) s1)
        as rest eqn:Erest.
      clear Erest Hraised Hturn.
      destruct rest as [o1 s2]. cbn [snd] in IH |- *.
      unfold ended_by_call, ended_by_sleep in IH |- *.
      rewrite Hself, Ht in IH.
      destruct IH as [(Hnf & pre & t & Ht1 & Ho)
                     | (pre & t & diff & H0 & Hle & Ht1 & He)].
      * left. split; [exact Hnf|].
        exists (((clock st,
                  Evaluate (_estimator (self st))
                    (eval_call (self st) input_fn name)) :: evs) ++ pre), t.
        split.
        -- rewrite Ht1, <- !app_assoc. reflexivity.
        -- rewrite app_assoc. exact Ho.
      * right.
        exists (((clock st,
                  Evaluate (_estimator (self st))
                    (eval_call (self st) input_fn name)) :: evs) ++ pre),
          t, diff.
        split; [exact H0|]. split; [exact Hle|]. split.
        -- rewrite Ht1, <- !app_assoc. reflexivity.
        -- rewrite app_assoc. exact He.
    + cbn [fst snd]. intros [= ->]. apply Hturn. reflexivity.
    + discriminate.
Qed.

(** X3: what can end [_continuous_eval] once the initial wait is over.
    If a run that began at once, or whose initial delay [time.sleep]
    accepted, ends with an exception, then either the last event of the run is a call of
    [Estimator.evaluate] and the exception is what that call raised,
    which is never a [NotFittedError]; or the last event is the log
    line of a throttle, and the exception is what [time.sleep] raised
    on the remainder of that throttle, a length that is positive and at
    most the throttle.  So where [time.sleep] accepts every length up
    to the throttle, only the Estimator can end the loop. *)
Theorem continuous_eval_ends_on_call_or_sleep (env : Environment)
    (input_fn : InputFn) (name : string) (d throttle : Q) (fuel : nat)
    (st : State) (ex : Exn) :
  well_behaved env ->
  (~ d == 0 -> sleep_error env (S (length (trace st))) d = None) ->
  let res := _continuous_eval env fuel input_fn name d throttle st in
  let est := _estimator (self st) in
  let c := eval_call (self st) input_fn name in
  let by_call :=
    is_NotFittedError ex = false /\
    exists (pre : list Stamped) (t : Q),
      trace (snd res) = trace st ++ pre ++ [(t, Evaluate est c)] /\
      outcome (evaluate_response env (length (trace st ++ pre)) est c)
        = inl ex in
  let by_sleep :=
    exists (pre : list Stamped) (t diff : Q),
      0 < diff /\ diff <= throttle /\
      trace (snd res) =
        trace st ++ pre ++
          [(t, LogInfo "Waiting %f secs before starting next eval run."
                 diff)] /\
      sleep_error env (S (length (trace st ++ pre))) diff = Some ex in
  fst res = Raised ex ->
  (by_call \/ by_sleep) /\
  (sleeps_up_to env throttle -> by_call).
Proof.
  intros (_ & Htook & _) Hacc res est c by_call by_sleep.
  subst res by_call by_sleep. cbv zeta.
  rewrite continuous_eval_accepted by exact Hacc.
  intros Hraised.
  destruct (delayed_trace env continuous_delay_fmt d st) as (pre0 & Hpre & _).
  assert (H : forall P Q' : Prop, (P \/ Q') -> (Q' -> sleeps_up_to env throttle -> False) ->
            (P \/ Q') /\ (sleeps_up_to env throttle -> P)).
  { intros P Q' [HP | HQ] Hno; (split; [tauto|]); intros Hs;
      [exact HP | destruct (Hno HQ Hs)]. }
  apply H.
  - destruct (while_true_raised env input_fn name throttle ex Htook fuel
                (delayed env continuous_delay_fmt d st) Hraised)
      as [(Hnf & pre & t & Ht & Ho) | (pre & t & diff & H0 & Hle & Ht & He)].
    + left. split; [exact Hnf|].
      rewrite delayed_self in Ht, Ho. fold est c in Ht, Ho.
      rewrite Hpre in Ht, Ho.
      exists (pre0 ++ pre), t. split.
      * rewrite Ht, <- !app_assoc. reflexivity.
      * rewrite app_assoc. exact Ho.
    + right. rewrite Hpre in Ht, He.
      exists (pre0 ++ pre), t, diff. split; [exact H0|].
      split; [exact Hle|]. split.
      * rewrite Ht, <- !app_assoc. reflexivity.
      * rewrite app_assoc. exact He.
  - intros (pre & t & diff & H0 & Hle & _ & He) Hs.
    rewrite (Hs _ diff) in He; [discriminate | lra | exact Hle].
Qed.

Lemma continuous_eval_ends_on_call_or_sleep_witness :
  let res := _continuous_eval failing_env 3 (InputFnObj 2) "continuous" 2 60
               (fresh_state sample_experiment) in
  well_behaved failing_env /\ sleep_error failing_env 1 2 = None /\
  sleeps_up_to failing_env 60 /\
  fst res = Raised (OtherError 8) /\
  exists (pre : list Stamped) (t : Q),
    trace (snd res) =
      pre ++ [(t, Evaluate sample_estimator
                    (eval_call sample_experiment (InputFnObj 2) "continuous"))].
Proof.
  intros res.
  assert (Hacc : sleep_error failing_env 1 2 = None) by reflexivity.
  assert (Hst : sleeps_up_to failing_env 60).
  { apply cpython_sleeps_up_to; [reflexivity | discriminate]. }
  assert (Hr : fst res = Raised (OtherError 8)) by (vm_compute; reflexivity).
  destruct (continuous_eval_ends_on_call_or_sleep failing_env (InputFnObj 2)
              "continuous" 2 60 3 (fresh_state sample_experiment)
              (OtherError 8) failing_env_well_behaved (fun _ => Hacc) Hr)
    as (_ & Hcall).
  destruct (Hcall Hst) as (_ & pre & t & Ht & _).
  split; [exact failing_env_well_behaved|].
  split; [exact Hacc|]. split; [exact Hst|].
  split; [exact Hr|]. exists pre, t. exact Ht.
Defined.

(** X4: the continuous evaluations only evaluate.  A run of
    [_continuous_eval], and so one of [continuous_eval] and of
    [continuous_eval_on_train_data], leaves every field of the
    experiment and every monitor list as it found them, and never
    invokes [Estimator.fit]. *)
Theorem continuous_eval_changes_nothing (env : Environment) (fuel : nat)
    (input_fn : InputFn) (name : string) (d throttle : Q) (st : State) :
  let untouched (res : Outcome Empty_set * State) :=
    self (snd res) = self st /\ heap (snd res) = heap st /\
    exists evs : list Stamped,
      trace (snd res) = trace st ++ evs /\ List.filter is_fit evs = [] in
  untouched (_continuous_eval env fuel input_fn name d throttle st) /\
  untouched (continuous_eval env fuel d throttle st) /\
  untouched (continuous_eval_on_train_data env fuel d throttle st).
Proof.
  intros untouched.
  assert (H : forall fn nm,
    untouched (_continuous_eval env fuel fn nm d throttle st)).
  { intros fn nm. subst untouched. cbv beta.
    destruct (continuous_eval_frame_run env fn nm d throttle fuel st)
      as (Hs & Hh).
    split; [exact Hs|]. split; [exact Hh|].
    apply (continuous_eval_events env fn nm throttle
             (fun evs => List.filter is_fit evs = [])); try reflexivity.
    - intros xs ys. apply filter_nil_app.
    - intros s. destruct (eval_iteration_shape env fn nm throttle s)
        as (_ & _ & w & th & Ht & Hw & Hth).
      eexists. split; [exact Ht|].
      cbn. rewrite List.filter_app.
      destruct Hw as [-> | [-> _]];
        destruct Hth as [-> | (t & diff & _ & [-> | [-> _]])];
        reflexivity. }
  split; [apply H|]. split; apply H.
Qed.

(** X5: a warning is the mark of a [NotFittedError].  [train],
    [evaluate] and [local_run] never log one, and a run of
    [_continuous_eval] logs none unless [Estimator.evaluate] raises
    [NotFittedError]. *)
Theorem warnings_only_after_not_fitted (env : Environment) (d : Q)
    (st : State) :
  let quiet {A : Type} (res : Outcome A * State) :=
    exists evs : list Stamped,
      trace (snd res) = trace st ++ evs /\ List.filter is_warning evs = [] in
  quiet (train env d st) /\
  quiet (evaluate env d st) /\
  quiet (local_run env st) /\
  ((forall n est c,
      outcome (evaluate_response env n est c) <> inl NotFittedError) ->
   forall (fuel : nat) (input_fn : InputFn) (name : string) (throttle : Q),
     quiet (_continuous_eval env fuel input_fn name d throttle st)).
Proof.
  intros quiet. subst quiet. cbv beta.
  split; [|split; [|split]].
  - rewrite train_unfold.
    destruct (initial_delay_cases env training_delay_fmt d st)
      as [-> | (ex & _ & _ & ->)].
    + cbn [snd fitted trace].
      unfold delayed. destruct (truthy_Q d); cbn [slept trace].
      * rewrite <- app_assoc. eexists. split; reflexivity.
      * eexists. split; reflexivity.
    + cbn [snd logged trace]. eexists. split; reflexivity.
  - rewrite evaluate_unfold.
    destruct (initial_delay_cases env eval_delay_fmt d st)
      as [-> | (ex & _ & _ & ->)].
    + cbn [snd evaluated trace].
      unfold delayed. destruct (truthy_Q d); cbn [slept trace].
      * rewrite <- app_assoc. eexists. split; reflexivity.
      * eexists. split; reflexivity.
    + cbn [snd logged trace]. eexists. split; reflexivity.
  - rewrite local_run_run. cbv zeta.
    destruct (outcome _); cbn [snd evaluated fitted trace prepared].
    + eexists. split; reflexivity.
    + rewrite <- app_assoc. eexists. split; reflexivity.
  - intros Hnever fuel input_fn name throttle.
    apply (continuous_eval_events env input_fn name throttle
             (fun evs => List.filter is_warning evs = [])); try reflexivity.
    + intros xs ys. apply filter_nil_app.
    + intros s. destruct (eval_iteration_shape env input_fn name throttle s)
        as (_ & _ & w & th & Ht & Hw & Hth).
      eexists. split; [exact Ht|].
      cbn. rewrite List.filter_app.
      destruct Hw as [-> | [_ Hnf]]; [|now apply Hnever in Hnf].
      destruct Hth as [-> | (t & diff & _ & [-> | [-> _]])]; reflexivity.
Qed.

Lemma warnings_only_after_not_fitted_witness :
  List.filter is_warning
    (trace (snd (_continuous_eval steady_env 3 (InputFnObj 2) "continuous"
                   2 60 (fresh_state sample_experiment)))) = [].
Proof.
  destruct (warnings_only_after_not_fitted steady_env 2
              (fresh_state sample_experiment)) as (_ & _ & _ & Hcont).
  assert (Hnever : forall n est c,
            outcome (evaluate_response steady_env n est c) <> inl NotFittedError)
    by (intros n est c; discriminate).
  destruct (Hcont Hnever 3%nat (InputFnObj 2) "continuous" 60)
    as (evs & Ht & Hq).
  rewrite Ht. exact Hq.
Defined.

Lemma spaced_cumulative (gap : Q) (starts : list Q) :
  spaced gap starts ->
  forall (i : nat) (first later : Q),
    starts !! 0%nat = Some first -> starts !! i = Some later ->
    first + inject_Z (Z.of_nat i) * gap <= later.
Proof.
  intros Hsp. induction i as [|i IH]; intros first later H0 Hi.
  - rewrite H0 in Hi. injection Hi as <-.
    change (inject_Z (Z.of_nat 0)) with 0. lra.
  - destruct (starts !! i) as [mid|] eqn:Hm.
    + specialize (IH first mid H0 eq_refl).
      pose proof (Hsp i mid later Hm Hi) as Hstep.
      rewrite Nat2Z.inj_succ. unfold Z.succ. rewrite inject_Z_plus.
      change (inject_Z 1) with 1.
      rewrite Qmult_plus_distr_l.
      set (x := inject_Z (Z.of_nat i) * gap) in *. lra.
    + apply lookup_ge_None in Hm. apply lookup_lt_Some in Hi. lia.
Qed.

(** X6: no more than one evaluation per [throttle_delay_secs].  In
    every run of [_continuous_eval], the evaluation that comes [i]
    places after the first one starts no earlier than [i] times
    [throttle_delay_secs] after it. *)
Theorem evaluations_at_most_one_per_throttle (env : Environment)
    (input_fn : InputFn) (name : string) (d throttle : Q) (fuel : nat)
    (st : State) :
  well_behaved env ->
  exists evs : list Stamped,
    trace (snd (_continuous_eval env fuel input_fn name d throttle st)) =
      trace st ++ evs /\
    forall (i : nat) (first later : Q),
      evaluate_starts evs !! 0%nat = Some first ->
      evaluate_starts evs !! i = Some later ->
      first + inject_Z (Z.of_nat i) * throttle <= later.
Proof.
  intros (_ & _ & Hs).
  destruct (continuous_eval_spaced env input_fn name d throttle fuel st Hs)
    as (evs & Ht & Hsp).
  exists evs. split; [exact Ht|]. now apply spaced_cumulative.
Qed.

Lemma evaluations_at_most_one_per_throttle_witness :
  let st := fresh_state sample_experiment in
  well_behaved steady_env /\
  exists evs : list Stamped,
    trace (snd (_continuous_eval steady_env 4 (InputFnObj 2) "continuous"
                  2 60 st)) = trace st ++ evs /\
    forall (i : nat) (first later : Q),
      evaluate_starts evs !! 0%nat = Some first ->
      evaluate_starts evs !! i = Some later ->
      first + inject_Z (Z.of_nat i) * 60 <= later.
Proof.
  intros st. split; [exact steady_env_well_behaved|].
  exact (evaluations_at_most_one_per_throttle steady_env (InputFnObj 2)
           "continuous" 2 60 4 st steady_env_well_behaved).
Defined.

(** Four evaluations of ten seconds under a throttle of sixty: the
    fourth starts more than three minutes after the first. *)
Example fourth_evaluation_after_three_minutes :
  let starts :=
    evaluate_starts
      (trace (snd (_continuous_eval steady_env 4 (InputFnObj 2) "continuous"
                     0 60 (fresh_state sample_experiment)))) in
  length starts = 4%nat /\
  match starts !! 0%nat, starts !! 3%nat with
  | Some first, Some later => Qle_bool (first + 180) later = true
  | _, _ => False
  end.
Proof. vm_compute. split; reflexivity. Qed.

Lemma throttle_wait_skip (env : Environment) (throttle start : Q)
    (st : State) :
  throttle <= clock st - start ->
  throttle_wait env throttle start st = (Returned tt, st).
Proof.
  intros H. unfold throttle_wait. apply Qlt_bool_false in H. now rewrite H.
Qed.

(** A completed turn under a throttle that is zero or negative: the
    call, the warning if any, and nothing else. *)
Lemma eval_iteration_unthrottled (env : Environment) (input_fn : InputFn)
    (name : string) (throttle : Q) (st : State) :
  (forall n est c, 0 <= took (evaluate_response env n est c)) ->
  throttle <= 0 ->
  let c := eval_call (self st) input_fn name in
  let r := evaluate_response env (length (trace st)) (_estimator (self st)) c in
  let res := eval_iteration env input_fn name throttle st in
  clock (snd res) = clock st + took r /\
  exists evs,
    trace (snd res) = trace st ++ evs /\ List.filter is_sleep evs = [].
Proof.
  intros Htook Hthr c r res. subst res.
  rewrite eval_iteration_run. fold c r.
  assert (Hr : 0 <= took r) by apply Htook.
  destruct (outcome r) as [ex|v]; [destruct (is_NotFittedError ex)|];
    try rewrite throttle_wait_skip
      by (cbn [warned evaluated clock]; fold r; lra);
    cbn [snd];
    cbn [warned evaluated clock trace]; fold r;
    (split; [reflexivity|]); try rewrite <- app_assoc;
    eexists; split; reflexivity.
Qed.

(** X7: a [throttle_delay_secs] that is zero or negative turns the
    throttle off.  Every completed turn of the loop hands over to the
    next the moment its call of [Estimator.evaluate] ends, and in a
    whole run of [_continuous_eval] the only sleep there can be is the
    initial wait. *)
Theorem nonpositive_throttle_never_sleeps (env : Environment)
    (input_fn : InputFn) (name : string) (throttle : Q) :
  well_behaved env ->
  throttle <= 0 ->
  (forall st : State,
     let c := eval_call (self st) input_fn name in
     let r := evaluate_response env (length (trace st)) (_estimator (self st)) c in
     clock (snd (eval_iteration env input_fn name throttle st)) =
       clock st + took r) /\
  (forall (fuel : nat) (d : Q) (st : State),
   exists evs : list Stamped,
     trace (snd (_continuous_eval env fuel input_fn name d throttle st)) =
       trace st ++ evs /\
     (List.filter is_sleep evs = [] \/
      List.filter is_sleep evs = [(clock st, Sleep d)])).
Proof.
  intros (_ & Htook & _) Hthr. split.
  - intros st.
    now destruct (eval_iteration_unthrottled env input_fn name throttle st
                    Htook Hthr) as [Hc _].
  - intros fuel d st.
    assert (Hloop : forall s : State,
      exists evs,
        trace (snd (while_true fuel
                      (eval_iteration env input_fn name throttle) s)) =
          trace s ++ evs /\ List.filter is_sleep evs = []).
    { apply (while_true_events env input_fn name throttle
               (fun evs => List.filter is_sleep evs = [])).
      - reflexivity.
      - intros xs ys. apply filter_nil_app.
      - intros s.
        now destruct (eval_iteration_unthrottled env input_fn name throttle s
                        Htook Hthr) as [_ H]. }
    destruct (continuous_eval_cases env fuel input_fn name d throttle st)
      as [-> | (ex & ->)].
    2: { cbn [snd logged trace]. eexists. split; [reflexivity|]. now left. }
    + destruct (Hloop (delayed env continuous_delay_fmt d st))
        as (evs & Ht & Hq).
      unfold delayed in Ht |- *. destruct (truthy_Q d).
      * cbn [slept trace] in Ht.
        exists ([(clock st, LogInfo continuous_delay_fmt d);
                 (clock st, Sleep d)] ++ evs).
        split; [rewrite Ht, <- app_assoc; reflexivity|].
        right. rewrite List.filter_app.
        exact (f_equal (fun l => (clock st, Sleep d) :: l) Hq).
      * exists evs. split; [exact Ht | now left].
Qed.

Lemma nonpositive_throttle_never_sleeps_witness :
  let st := fresh_state sample_experiment in
  well_behaved steady_env /\ 0 <= 0 /\
  clock (snd (eval_iteration steady_env (InputFnObj 2) "continuous" 0 st)) =
    0 + 10 /\
  exists evs : list Stamped,
    trace (snd (_continuous_eval steady_env 3 (InputFnObj 2) "continuous"
                  2 0 st)) = trace st ++ evs /\
    (List.filter is_sleep evs = [] \/
     List.filter is_sleep evs = [(clock st, Sleep 2)]).
Proof.
  intros st.
  assert (H0 : 0 <= 0) by discriminate.
  destruct (nonpositive_throttle_never_sleeps steady_env (InputFnObj 2)
              "continuous" 0 steady_env_well_behaved H0) as (Hturn & Hrun).
  split; [exact steady_env_well_behaved|]. split; [exact H0|].
  split; [exact (Hturn st) | exact (Hrun 3%nat 2 st)].
Defined.

(** X8: the throttle waits no longer than it has to.  When sleeps end
    on time, a completed turn that began at instant [t] hands over to
    the next at [t + max(duration, throttle_delay_secs)], where
    [duration] is the time the call of [Estimator.evaluate] took. *)
Theorem punctual_turn_period (env : Environment) (input_fn : InputFn)
    (name : string) (throttle : Q) (st : State) :
  (forall n, oversleep env n == 0) ->
  let c := eval_call (self st) input_fn name in
  let r := evaluate_response env (length (trace st)) (_estimator (self st)) c in
  let turn := eval_iteration env input_fn name throttle st in
  fst turn = Returned tt ->
  clock (snd turn) == clock st + Qmax (took r) throttle.
Proof.
  intros Hs c r turn. subst turn. rewrite eval_iteration_run. fold c r.
  assert (Hthr : forall s0 : State,
    clock s0 = clock st + took r ->
    clock (throttled env throttle (clock st) s0) ==
      clock st + Qmax (took r) throttle).
  { intros s0 Hc. unfold throttled. rewrite Hc.
    destruct (Qlt_bool (clock st + took r - clock st) throttle) eqn:E.
    - apply Qlt_bool_true in E. unfold slept. cbn [clock].
      rewrite Hc, Hs, Q.max_r by lra. lra.
    - apply Qlt_bool_false in E. rewrite Hc, Q.max_l by lra. lra. }
  assert (Hwait : forall s0 : State,
    clock s0 = clock st + took r ->
    fst (throttle_wait env throttle (clock st) s0) = Returned tt ->
    clock (snd (throttle_wait env throttle (clock st) s0)) ==
      clock st + Qmax (took r) throttle).
  { intros s0 Hc.
    destruct (throttle_wait_cases env throttle (clock st) s0)
      as [-> | (ex & _ & _ & ->)]; [|discriminate].
    intros _. cbn [snd]. now apply Hthr. }
  destruct (outcome r) as [ex|v].
  - destruct (is_NotFittedError ex); [|discriminate].
    now apply Hwait.
  - now apply Hwait.
Qed.

Lemma punctual_turn_period_witness :
  let st := fresh_state sample_experiment in
  clock (snd (eval_iteration unfitted_env (InputFnObj 2) "continuous" 60 st))
  == 0 + Qmax 1 60 /\
  clock (snd (eval_iteration slow_env (InputFnObj 2) "continuous" 60 st))
  == 0 + Qmax 70 60.
Proof.
  intros st. split.
  - apply (punctual_turn_period unfitted_env (InputFnObj 2) "continuous" 60 st).
    + intros n. reflexivity.
    + reflexivity.
  - apply (punctual_turn_period slow_env (InputFnObj 2) "continuous" 60 st).
    + intros n. reflexivity.
    + reflexivity.
Defined.

(** *** More on [local_run] *)

Lemma monitors_ref_fresh (st : State) :
  monitors_of st = [] -> monitors_ref st = length (heap st).
Proof.
  unfold monitors_of, monitors_ref.
  destruct (_train_monitors (self st)) as [l|]; [|reflexivity].
  cbn [truthy_list].
  destruct (heap st !! l) as [[|x xs]|]; cbn [default];
    try reflexivity. discriminate.
Qed.

Lemma monitors_ref_kept (st : State) :
  monitors_of st <> [] -> Some (monitors_ref st) = _train_monitors (self st).
Proof.
  unfold monitors_of, monitors_ref.
  destruct (_train_monitors (self st)) as [l|]; [|contradiction].
  cbn [truthy_list].
  destruct (heap st !! l) as [[|x xs]|]; cbn [default];
    try contradiction. reflexivity.
Qed.

Lemma prepared_length (st : State) :
  length (heap (prepared st)) =
    if truthy_list (heap st) (_train_monitors (self st))
    then length (heap st) else S (length (heap st)).
Proof.
  unfold prepared. cbn [heap].
  assert (Hd : length (defaulted_heap st) =
               if truthy_list (heap st) (_train_monitors (self st))
               then length (heap st) else S (length (heap st))).
  { unfold defaulted_heap. destruct (truthy_list _ _); [reflexivity|].
    rewrite length_app. cbn. lia. }
  destruct (truthy_steps _); [rewrite length_alter|]; exact Hd.
Qed.

Lemma truthy_list_monitors (st : State) :
  truthy_list (heap st) (_train_monitors (self st)) = true <->
  monitors_of st <> [].
Proof.
  unfold monitors_of. destruct (_train_monitors (self st)) as [l|];
    cbn [truthy_list].
  - destruct (heap st !! l) as [[|x xs]|]; cbn [default]; split;
      try discriminate; try contradiction; try reflexivity; intros _ H;
      discriminate.
  - split; [discriminate | contradiction].
Qed.

(** X9: [local_run] touches one list object only.  Every list that
    existed before the call, other than the one the field refers to
    afterwards, keeps its contents.  When the stored list is empty, or
    the field is [None], [local_run] works on a list of its own making:
    the field ends up referring to a new object and every list that
    existed, the stored empty one included, is left as it was. *)
Theorem local_run_spares_other_lists (env : Environment) (st : State) :
  let st' := snd (local_run env st) in
  (forall l : loc,
     (l < length (heap st))%nat ->
     _train_monitors (self st') <> Some l ->
     heap st' !! l = heap st !! l) /\
  (monitors_of st = [] ->
   _train_monitors (self st') = Some (length (heap st)) /\
   length (heap st') = S (length (heap st)) /\
   forall l : loc,
     (l < length (heap st))%nat -> heap st' !! l = heap st !! l).
Proof.
  intros st'. subst st'. rewrite local_run_self, local_run_heap.
  cbn [with_train_monitors _train_monitors]. split.
  - intros l Hl Hne. apply prepared_frame; [exact Hl | congruence].
  - intros Hempty. rewrite (monitors_ref_fresh st Hempty).
    split; [reflexivity|]. split.
    + rewrite prepared_length.
      destruct (truthy_list _ _) eqn:E; [|reflexivity].
      apply truthy_list_monitors in E. contradiction.
    + intros l Hl. apply prepared_frame; [exact Hl|].
      rewrite (monitors_ref_fresh st Hempty). lia.
Qed.

Lemma local_run_spares_other_lists_witness :
  let st' := snd (local_run steady_env empty_list_state) in
  monitors_of empty_list_state = [] /\
  _train_monitors (self st') = Some 1%nat /\
  heap st' !! 0%nat = Some [] /\
  heap st' !! 1%nat =
    Some [ValidationMonitor (InputFnObj 2) (Some 100%Z) None 5].
Proof.
  intros st'.
  destruct (local_run_spares_other_lists steady_env empty_list_state)
    as (_ & Hfresh).
  destruct (Hfresh eq_refl) as (Hfield & _ & Hkeep).
  split; [reflexivity|]. split; [exact Hfield|]. split.
  - apply (Hkeep 0%nat). cbn. lia.
  - reflexivity.
Defined.

Lemma local_run_periodic (env : Environment) (st : State) :
  periodic_monitors (self (snd (local_run env st))) =
    periodic_monitors (self st).
Proof. rewrite local_run_self. reflexivity. Qed.

Lemma local_runs_monitors (env : Environment) (k : nat) (st : State) :
  monitors_of (local_runs env k st) =
    monitors_of st ++ concat (replicate k (periodic_monitors (self st))).
Proof.
  revert st. induction k as [|k IH]; intros st; cbn [local_runs].
  - cbn. now rewrite app_nil_r.
  - rewrite IH, local_run_monitors, local_run_periodic, replicate_S.
    cbn [concat]. now rewrite <- app_assoc.
Qed.

(** X10: the monitor list grows with every call of [local_run].  When
    [local_eval_frequency] is a non-zero integer, [k] calls in a row
    leave the list with [k] more periodic monitors at its end, whatever
    the calls returned or raised; when it is [None] or [0], the list
    reads after [k] calls as it did before. *)
Theorem local_run_repeated (env : Environment) (k : nat) (st : State) :
  let e := self st in
  (forall n : Z,
     _local_eval_frequency e = Some n -> n <> 0%Z ->
     monitors_of (local_runs env k st) =
       monitors_of st ++
       replicate k (ValidationMonitor (_eval_input_fn e) (_eval_steps e)
                      (_eval_metrics e) n)) /\
  (_local_eval_frequency e = None \/ _local_eval_frequency e = Some 0%Z ->
   monitors_of (local_runs env k st) = monitors_of st).
Proof.
  intros e. subst e. split.
  - intros n Hf Hn. rewrite local_runs_monitors.
    rewrite (periodic_monitors_set _ _ Hf Hn). f_equal.
    induction k as [|k IH]; [reflexivity|].
    rewrite !replicate_S. cbn [concat app]. now rewrite IH.
  - intros Hf. rewrite local_runs_monitors.
    assert (Hp : periodic_monitors (self st) = []).
    { unfold periodic_monitors. destruct Hf as [-> | ->]; reflexivity. }
    rewrite Hp. induction k as [|k IH]; cbn; [apply app_nil_r | exact IH].
Qed.

Lemma local_run_repeated_witness :
  monitors_of (local_runs steady_env 3 monitored_state) =
    [UserMonitor 1;
     ValidationMonitor (InputFnObj 2) (Some 100%Z) None 5;
     ValidationMonitor (InputFnObj 2) (Some 100%Z) None 5;
     ValidationMonitor (InputFnObj 2) (Some 100%Z) None 5] /\
  monitors_of (local_runs steady_env 3 unscheduled_state) = [UserMonitor 1].
Proof.
  assert (Hn : 5%Z <> 0%Z) by discriminate.
  destruct (local_run_repeated steady_env 3 monitored_state) as (Hgrow & _).
  destruct (local_run_repeated steady_env 3 unscheduled_state) as (_ & Hsame).
  split.
  - exact (Hgrow 5%Z eq_refl Hn).
  - apply Hsame. left. reflexivity.
Defined.


(** X12: an experiment built with the three required arguments only.
    [train()] fits without step bound and with [monitors=None];
    [evaluate()] evaluates 100 steps with the default metrics;
    [local_run()] appends no monitor and gives [fit] a new, empty list;
    [continuous_eval()] starts, without waiting, by evaluating 100
    steps of the evaluation input under the name ["continuous"]. *)
Theorem default_experiment_runs (env : Environment) (est : EstimatorRef)
    (train_input_fn eval_input_fn : InputFn) (h : list (list Monitor))
    (t0 : Q) (tr : list Stamped) (fuel : nat) :
  let st := {| self := default_Experiment est train_input_fn eval_input_fn;
               heap := h; clock := t0; trace := tr |} in
  let evaluation (name : string) :=
    Evaluate est {| evaluate_input_fn := eval_input_fn;
                    evaluate_steps := Some 100%Z;
                    evaluate_metrics := None;
                    evaluate_name := name |} in
  trace (snd (train env 0 st)) =
    tr ++ [(t0, Fit est {| fit_input_fn := train_input_fn;
                           fit_max_steps := None;
                           fit_monitors := None |})] /\
  trace (snd (evaluate env 0 st)) = tr ++ [(t0, evaluation "one_pass")] /\
  heap (snd (local_run env st)) = h ++ [[]] /\
  (exists rest : list Stamped,
     trace (snd (local_run env st)) =
       tr ++ (t0, Fit est {| fit_input_fn := train_input_fn;
                             fit_max_steps := None;
                             fit_monitors := Some (length h) |}) :: rest) /\
  (exists rest : list Stamped,
     trace (snd (continuous_eval env (S fuel) 0 60 st)) =
       tr ++ (t0, evaluation "continuous") :: rest).
Proof.
  intros st evaluation. split; [|split; [|split; [|split]]].
  - rewrite train_now. reflexivity.
  - rewrite evaluate_now. reflexivity.
  - rewrite local_run_heap. reflexivity.
  - rewrite local_run_run. cbv zeta.
    destruct (outcome _); eexists; cbn [snd evaluated fitted trace];
      [|rewrite <- app_assoc]; reflexivity.
  - change (continuous_eval env (S fuel) 0 60 st) with
      (while_true (S fuel) (eval_iteration env eval_input_fn "continuous" 60) st).
    destruct (eval_iteration_trace env eval_input_fn "continuous" 60 st)
      as (_ & evs & Ht & _).
    rewrite while_true_turn.
    destruct (eval_iteration env eval_input_fn "continuous" 60 st)
      as [[[]|ex|] st1]; cbn [snd] in Ht |- *.
    + destruct (while_true_calls env eval_input_fn "continuous" 60 fuel st1)
        as (evs1 & Ht1 & _).
      exists (evs ++ evs1). rewrite Ht1, Ht, <- app_assoc. reflexivity.
    + exists evs. exact Ht.
    + exists evs. exact Ht.
Qed.
